(** * import-dynamodb-local: a shallow embedding of the two scripts

    - [ImportDynamodbLocal] embeds the table replicator
      (import-dynamodb-local): [chunkArray], [getTableDescriptionInfo],
      [importRemoteDataToLocalDynamoDB], [exportAndImportDynamoDBTable].
    - [GetVars] embeds the environment collector (get-vars.js):
      [listStackResources].

    Both scripts are sequential orchestration of service calls.  A service
    is an arbitrary transformer of an abstract world that settles every
    request (fulfilled with an output, or rejected with an error); the
    scripts are state-passing programs that record every call they issue
    and every console line they print in a trace.

    Numbers are integers: the item limit is a [Z] (zero and negative
    limits included; [NaN] and fractions are outside the model), array
    indices follow [Array.prototype.slice].  Objects used as maps are
    [gmap]s with string keys.  The [for ... of] over the generator and the
    recursion into nested stacks take a fuel; the theorems that state what
    a run produces give a fuel that is enough. *)

From Stdlib Require Import ZArith Lia Ascii.
From stdpp Require Import base option numbers list strings gmap pretty.

Local Open Scope string_scope.
Local Open Scope list_scope.
Local Open Scope Z_scope.

(** ** JavaScript values and control flow shared by both scripts *)

Module Js.

(** A thrown value: an object with a [name] and a [message]. *)
Record Error := mkError { name : string; message : string }.

(** [new Error(msg)] *)
Definition new_Error (msg : string) : Error := mkError "Error" msg.

(** The [TypeError] of a property access on [undefined]. *)
Definition TypeError (msg : string) : Error := mkError "TypeError" msg.

(** A settled promise. *)
Inductive Settled (A : Type) : Type :=
| Fulfilled (a : A)
| Rejected (e : Error).
Arguments Fulfilled {A} a.
Arguments Rejected {A} e.

(** How the evaluation of a function body ends.  [OutOfFuel] is the
    model's own: the loop or the recursion was cut before it finished. *)
Inductive Completion (A : Type) : Type :=
| Normal (a : A)
| Throw (e : Error)
| OutOfFuel.
Arguments Normal {A} a.
Arguments Throw {A} e.
Arguments OutOfFuel {A}.

(** [Array.prototype.slice(start, end)] on integer indices: a negative
    index counts from the end, both are clamped to [0, length]. *)
Definition slice {A : Type} (arr : list A) (start stop : Z) : list A :=
  let len := Z.of_nat (length arr) in
  let k := if start <? 0 then Z.max (len + start) 0 else Z.min start len in
  let final := if stop <? 0 then Z.max (len + stop) 0 else Z.min stop len in
  take (Z.to_nat (Z.max (final - k) 0)) (drop (Z.to_nat k) arr).

(** [s.split(sep)] for a one-character separator. *)
Fixpoint split_go (sep : Ascii.ascii) (cur : string) (s : string) : list string :=
  match s with
  | EmptyString => [String.rev cur]
  | String c s' =>
      if decide (c = sep) then String.rev cur :: split_go sep EmptyString s'
      else split_go sep (String c cur) s'
  end.
Definition split (sep : Ascii.ascii) (s : string) : list string :=
  split_go sep EmptyString s.

(** Whether a character occurs in a string. *)
Fixpoint occurs (c : Ascii.ascii) (s : string) : bool :=
  match s with
  | EmptyString => false
  | String a s' => if decide (a = c) then true else occurs c s'
  end.

(** The characters that a string literal of the model cannot hold. *)
Definition dquote : string := String (Ascii.ascii_of_nat 34) EmptyString.
Definition newline : string := String (Ascii.ascii_of_nat 10) EmptyString.

(** Template-literal conversion of a string that may be [undefined]. *)
Definition to_string (s : option string) : string := default "undefined" s.

(** *** Control flow: a program threads a state and ends with a
    completion. *)
Definition M (St A : Type) : Type := St -> St * Completion A.

Definition ret {St A} (a : A) : M St A := fun s => (s, Normal a).
Definition throw {St A} (e : Error) : M St A := fun s => (s, Throw e).
Definition out_of_fuel {St A} : M St A := fun s => (s, OutOfFuel).
Definition bind {St A B} (m : M St A) (k : A -> M St B) : M St B := fun s =>
  match m s with
  | (s', Normal a) => k a s'
  | (s', Throw e) => (s', Throw e)
  | (s', OutOfFuel) => (s', OutOfFuel)
  end.

(** [try { m } catch (err) { handler }] *)
Definition try_catch {St A} (m : M St A) (handler : Error -> M St A) : M St A :=
  fun s =>
    match m s with
    | (s', Throw e) => handler e s'
    | r => r
    end.

Declare Scope js_scope.
Delimit Scope js_scope with js.
Notation "x <- m ;; k" := (bind m (fun x => k))
  (at level 100, m at next level, right associativity) : js_scope.
Notation "m ;;; k" := (bind m (fun _ => k))
  (at level 100, right associativity) : js_scope.

End Js.

Export Js.
Local Open Scope js_scope.

(** ** The table replicator *)

Module ImportDynamodbLocal.

(** The four client objects of the script. *)
Inductive Client : Set :=
| dynamodbClient | dynamodbDocClient
| dynamodbLocalClient | dynamodbLocalDocClient.

(** [ceil (a / b)] for a positive [b]. *)
Definition cdiv (a b : Z) : Z := (a + b - 1) / b.

Section Replicator.

(** Items and table descriptions are opaque to the script. *)
Context {Item TableDescription World : Type}.

(** [{ PutRequest: { Item: item } }] *)
Inductive WriteRequest : Type :=
| PutRequest (item : Item).

(** The commands the script builds.  [CreateTableCommand] receives
    whatever [.Table] of the describe output is, [undefined] included;
    [BatchWriteItemCommand t reqs] is
    [{ RequestItems: { [t]: reqs } }]. *)
Inductive Command : Type :=
| DescribeTableCommand (TableName : string)
| CreateTableCommand (input : option TableDescription)
| ScanCommand (TableName : string)
| BatchWriteItemCommand (table : string) (putRequests : list WriteRequest).

(** What [send] resolves with: the fields the script reads. *)
Record Output := mkOutput {
  Table : option TableDescription;
  Items : option (list Item)
}.

Inductive Event : Type :=
| Send (c : Client) (cmd : Command)
| ConsoleLog (line : string)
| ConsoleError (e : Error).

Record State := mkState { world : World; trace : list Event }.

(** The services, the remote table name and the item limit. *)
Variable send : Client -> Command -> World -> World * Settled Output.
Variable tableName : string.
Variable limit : Z.

Definition M (A : Type) : Type := Js.M State A.

Definition emit (e : Event) : M unit := fun s =>
  (mkState (world s) (trace s ++ [e]), Normal tt).
Definition console_log (line : string) : M unit := emit (ConsoleLog line).
Definition console_error (e : Error) : M unit := emit (ConsoleError e).

(** [await client.send(command)] *)
Definition client_send (c : Client) (cmd : Command) : M Output := fun s =>
  let '(w, r) := send c cmd (world s) in
  let s' := mkState w (trace s ++ [Send c cmd]) in
  match r with
  | Fulfilled o => (s', Normal o)
  | Rejected e => (s', Throw e)
  end.

(** *** chunkArray

    The generator object: the array, the stride and the loop variable
    [i]. [next] runs the body up to the next [yield]. *)
Record Generator := mkGenerator { arr : list Item; stride : Z; i : Z }.

Definition chunkArray (arr : list Item) (stride : option Z) : Generator :=
  mkGenerator arr (default 1 stride) 0.

Definition next (g : Generator) : option (list Item * Generator) :=
  let len := Z.of_nat (length (arr g)) in
  if i g <? len then
    Some (slice (arr g) (i g) (Z.min (i g + stride g) len),
          mkGenerator (arr g) (stride g) (i g + stride g))
  else None.

(** [[...chunks]]: a consumer that takes every chunk. *)
Fixpoint drain (fuel : nat) (g : Generator) : option (list (list Item)) :=
  match next g with
  | None => Some []
  | Some (chunk, g') =>
      match fuel with
      | O => None
      | S fuel' => cons chunk <$> drain fuel' g'
      end
  end.

(** *** getTableDescriptionInfo *)
Definition getTableDescriptionInfo (tableName : string) (documentClient : Client)
  : M (option Output) :=
  try_catch
    (o <- client_send documentClient (DescribeTableCommand tableName) ;;
     ret (Some o))
    (fun err =>
       if decide (name err = "ResourceNotFoundException") then ret None
       else throw err).

(** *** importRemoteDataToLocalDynamoDB *)
Fixpoint import_loop (fuel : nat) (itemChunks : Generator) (limitCounter : Z)
  : M unit :=
  match next itemChunks with
  | None => ret tt
  | Some (items, itemChunks') =>
      match fuel with
      | O => out_of_fuel
      | S fuel' =>
          let putRequests := map PutRequest items in
          let batchWriteCommand := BatchWriteItemCommand tableName putRequests in
          client_send dynamodbLocalDocClient batchWriteCommand ;;;
          let limitCounter := limitCounter + Z.of_nat (length items) in
          if limit <=? limitCounter then ret tt
          else import_loop fuel' itemChunks' limitCounter
      end
  end.

Definition importRemoteDataToLocalDynamoDB (fuel : nat) (items : list Item)
  : M unit :=
  let stride := if 25 <? limit then 25 else limit in
  let itemChunks := chunkArray items (Some stride) in
  import_loop fuel itemChunks 0.

(** *** exportAndImportDynamoDBTable *)
Definition msg_start : string :=
  "Exporting and importing DynamoDB table from remote DynamoDB to local DynamoDB..."
  +:+ newline.
Definition msg_missing : string :=
  "Table " +:+ dquote +:+ tableName +:+ dquote +:+
  " does not exist in the remote DynamoDB, Please create the table first before exporting and importing it to local DynamoDB.".
Definition msg_empty : string :=
  "Table " +:+ tableName +:+
  " is empty, no data to export and import to local DynamoDB".
Definition msg_done : string :=
  "Table " +:+ dquote +:+ tableName +:+ dquote +:+
  " exported from remote DynamoDB and imported to local DynamoDB successfully!".

(** The block under [try]. *)
Definition exportAndImport_try (fuel : nat) : M unit :=
  remoteTableDescription <- getTableDescriptionInfo tableName dynamodbDocClient ;;
  match remoteTableDescription with
  | None => throw (new_Error msg_missing)
  | Some remoteTableDescription =>
      localTableDescription <- getTableDescriptionInfo tableName dynamodbLocalDocClient ;;
      match localTableDescription with
      | None =>
          let createTableCommand := CreateTableCommand (Table remoteTableDescription) in
          client_send dynamodbLocalDocClient createTableCommand ;;; ret tt
      | Some _ => ret tt
      end ;;;
      let scanCommand := ScanCommand tableName in
      tableData <- client_send dynamodbClient scanCommand ;;
      match Items tableData with
      | None => console_log msg_empty
      | Some items =>
          if Z.of_nat (length items) =? 0 then console_log msg_empty
          else
            importRemoteDataToLocalDynamoDB fuel items ;;;
            console_log msg_done
      end
  end.

Definition exportAndImportDynamoDBTable (fuel : nat) : M unit :=
  console_log msg_start ;;;
  try_catch (exportAndImport_try fuel) (fun err => console_error err).

(** *** Reading a trace *)

(** The put requests of every batch write issued, in order. *)
Definition batch_calls (tr : list Event) : list (list WriteRequest) :=
  omap (fun e => match e with
                 | Send _ (BatchWriteItemCommand _ reqs) => Some reqs
                 | _ => None
                 end) tr.

(** The client and the input of every create-table issued, in order. *)
Definition create_calls (tr : list Event) : list (Client * option TableDescription) :=
  omap (fun e => match e with
                 | Send c (CreateTableCommand input) => Some (c, input)
                 | _ => None
                 end) tr.

Definition scan_calls (tr : list Event) : list (Client * string) :=
  omap (fun e => match e with
                 | Send c (ScanCommand t) => Some (c, t)
                 | _ => None
                 end) tr.

Definition console_errors (tr : list Event) : list Error :=
  omap (fun e => match e with ConsoleError err => Some err | _ => None end) tr.

(** The event of writing one chunk. *)
Definition write_event (chunk : list Item) : Event :=
  Send dynamodbLocalDocClient (BatchWriteItemCommand tableName (map PutRequest chunk)).

(** The [k]-th window of width [n] of an array. *)
Definition chunk_at (n : nat) (arr : list Item) (k : nat) : list Item :=
  take n (drop (k * n) arr).

(** The local service accepts every batch written to the table. *)
Definition accepts_batches : Prop :=
  forall reqs w, exists w' o,
    send dynamodbLocalDocClient (BatchWriteItemCommand tableName reqs) w
    = (w', Fulfilled o).

(** The number of windows of width [n] that an array holds. *)
Definition windows (n : nat) (arr : list Item) : nat :=
  Z.to_nat (cdiv (Z.of_nat (length arr)) (Z.of_nat n)).


(** The calls a run makes before it writes, in the order of the source;
    [create] is the input of the create-table when there is one. *)
Definition call_plan (create : option (option TableDescription)) : list Event :=
  [Send dynamodbDocClient (DescribeTableCommand tableName);
   Send dynamodbLocalDocClient (DescribeTableCommand tableName)]
  ++ match create with
     | Some input => [Send dynamodbLocalDocClient (CreateTableCommand input)]
     | None => []
     end
  ++ [Send dynamodbClient (ScanCommand tableName)].

(** How a run may end its trace: with nothing more (it was cut), with one
    console line, or with one error on standard error. *)
Definition closing (tail : list Event) : Prop :=
  tail = [] \/ (exists line, tail = [ConsoleLog line]) \/ (exists e, tail = [ConsoleError e]).

End Replicator.

(** The stride the import passes to the chunker. *)
Definition import_stride (limit : Z) : Z := if 25 <? limit then 25 else limit.

(** The running count of written items at the first chunk where it is
    at least the limit, on a list long enough to get there. *)
Definition firstChunkCountReachingL (limit : Z) : Z :=
  import_stride limit * cdiv limit (import_stride limit).

End ImportDynamodbLocal.

(** ** Example services for the replicator *)

Module ReplicatorExample.
Import ImportDynamodbLocal.

(** One table on each side: a schema name and rows, or no table. *)
Record Tables := mkTables {
  remoteTable : option (string * list nat);
  localTable : option (string * list nat)
}.

Definition notFound : Error :=
  mkError "ResourceNotFoundException" "Cannot do operations on a non-existent table".
Definition invalid : Error := mkError "ValidationException" "Unsupported request".
Definition inUse : Error := mkError "ResourceInUseException" "Table already exists".

Definition described (schema : string) : @Output nat string := mkOutput (Some schema) None.
Definition scanned (rows : list nat) : @Output nat string := mkOutput None (Some rows).
Definition done : @Output nat string := mkOutput None None.

Definition rows_of (reqs : list (@WriteRequest nat)) : list nat :=
  map (fun r => match r with PutRequest row => row end) reqs.

(** A small in-memory service. *)
Definition table_send (c : Client) (cmd : @Command nat string) (w : Tables)
  : Tables * Settled (@Output nat string) :=
  match c with
  | dynamodbClient | dynamodbDocClient =>
      match cmd, remoteTable w with
      | DescribeTableCommand _, Some (schema, _) => (w, Fulfilled (described schema))
      | ScanCommand _, Some (_, rows) => (w, Fulfilled (scanned rows))
      | (DescribeTableCommand _ | ScanCommand _), None => (w, Rejected notFound)
      | _, _ => (w, Rejected invalid)
      end
  | dynamodbLocalClient | dynamodbLocalDocClient =>
      match cmd, localTable w with
      | DescribeTableCommand _, Some (schema, _) => (w, Fulfilled (described schema))
      | ScanCommand _, Some (_, rows) => (w, Fulfilled (scanned rows))
      | CreateTableCommand (Some schema), None =>
          (mkTables (remoteTable w) (Some (schema, [])), Fulfilled done)
      | CreateTableCommand (Some _), Some _ => (w, Rejected inUse)
      | CreateTableCommand None, _ => (w, Rejected invalid)
      | BatchWriteItemCommand _ reqs, Some (schema, rows) =>
          (mkTables (remoteTable w) (Some (schema, rows ++ rows_of reqs)), Fulfilled done)
      | _, None => (w, Rejected notFound)
      end
  end.

(** A local service that stores every row it is sent. *)
Definition store_send (c : Client) (cmd : @Command nat string) (w : list nat)
  : list nat * Settled (@Output nat string) :=
  match cmd with
  | BatchWriteItemCommand _ reqs => (w ++ rows_of reqs, Fulfilled done)
  | _ => (w, Fulfilled done)
  end.

(** A service whose tables are always there: the remote one holds three
    rows, the local one stores what it is sent. *)
Definition open_send (c : Client) (cmd : @Command nat string) (w : list nat)
  : list nat * Settled (@Output nat string) :=
  match cmd with
  | DescribeTableCommand _ => (w, Fulfilled (described "orders-schema"))
  | CreateTableCommand _ => (w, Fulfilled done)
  | ScanCommand _ => (w, Fulfilled (scanned [11; 12; 13]%nat))
  | BatchWriteItemCommand _ reqs => (w ++ rows_of reqs, Fulfilled done)
  end.

Definition denied : Error := mkError "AccessDeniedException" "Not authorized".

(** A service that refuses every call. *)
Definition denied_send (c : Client) (cmd : @Command nat string) (w : unit)
  : unit * Settled (@Output nat string) :=
  (w, Rejected denied).

(** [table_send] with a local side that refuses to create tables. *)
Definition locked_send (c : Client) (cmd : @Command nat string) (w : Tables)
  : Tables * Settled (@Output nat string) :=
  match c, cmd with
  | (dynamodbLocalClient | dynamodbLocalDocClient), CreateTableCommand _ =>
      (w, Rejected denied)
  | _, _ => table_send c cmd w
  end.

Definition fresh {World : Type} (w : World) : @State nat string World := mkState w [].

(** Three worlds: a remote table with rows, an empty one, none. *)
Definition source : Tables := mkTables (Some ("orders-schema", [11; 12; 13]%nat)) None.
Definition empty_source : Tables := mkTables (Some ("orders-schema", [])) None.
Definition no_source : Tables := mkTables None None.

(** The states a run on [empty_source] goes through. *)
Definition empty_started : @State nat string Tables :=
  mkState empty_source [ConsoleLog msg_start].
Definition empty_described : @State nat string Tables :=
  (getTableDescriptionInfo table_send "Orders" dynamodbDocClient empty_started).1.
Definition empty_checked : @State nat string Tables :=
  (getTableDescriptionInfo table_send "Orders" dynamodbLocalDocClient empty_described).1.
Definition empty_created : @State nat string Tables :=
  (client_send table_send dynamodbLocalDocClient
     (CreateTableCommand (Some "orders-schema")) empty_checked).1.
Definition empty_scanned : @State nat string Tables :=
  (client_send table_send dynamodbClient (ScanCommand "Orders") empty_created).1.

End ReplicatorExample.

(** ** The environment collector *)

Module GetVars.

(** An entry of [StackResourceSummaries]. *)
Record StackResourceSummary := mkResource {
  ResourceType : string;
  LogicalResourceId : string;
  PhysicalResourceId : option string
}.

(** [lambdaConfig.Environment.Variables] *)
Record EnvironmentResponse := mkEnvironment {
  Variables : option (gmap string string)
}.
Record FunctionConfiguration := mkConfiguration {
  Environment : option EnvironmentResponse
}.

(** The per-stack map from logical resource id to variables. *)
Abbreviation Page := (gmap string (gmap string string)).

(** Service calls are recorded with their answers. *)
Inductive Event : Type :=
| ListStackResources (StackName : option string)
    (answer : Settled (list StackResourceSummary))
| GetFunctionConfiguration (FunctionName : option string)
    (answer : Settled FunctionConfiguration)
| ConsoleLog (line : string).

Section Collector.
Context {World : Type}.

(** The global accumulators, the services' world and the trace. *)
Record State := mkState {
  functionCount : nat;
  merged : gmap string string;
  stacks : gmap string Page;
  world : World;
  trace : list Event
}.

Variable cloudformation_listStackResources :
  option string -> World -> World * Settled (list StackResourceSummary).
Variable lambda_getFunctionConfiguration :
  option string -> World -> World * Settled FunctionConfiguration.

Definition M (A : Type) : Type := Js.M State A.

Definition emit (e : Event) : M unit := fun s =>
  (mkState (functionCount s) (merged s) (stacks s) (world s) (trace s ++ [e]),
   Normal tt).
Definition console_log (line : string) : M unit := emit (ConsoleLog line).

(** [await cloudformation.listStackResources({ StackName })] *)
Definition listStackResources_call (StackName : option string)
  : M (list StackResourceSummary) := fun s =>
  let '(w, answer) := cloudformation_listStackResources StackName (world s) in
  let s' := mkState (functionCount s) (merged s) (stacks s) w
              (trace s ++ [ListStackResources StackName answer]) in
  match answer with
  | Fulfilled summaries => (s', Normal summaries)
  | Rejected e => (s', Throw e)
  end.

(** [await lambda.getFunctionConfiguration({ FunctionName })] *)
Definition getFunctionConfiguration_call (FunctionName : option string)
  : M FunctionConfiguration := fun s =>
  let '(w, answer) := lambda_getFunctionConfiguration FunctionName (world s) in
  let s' := mkState (functionCount s) (merged s) (stacks s) w
              (trace s ++ [GetFunctionConfiguration FunctionName answer]) in
  match answer with
  | Fulfilled config => (s', Normal config)
  | Rejected e => (s', Throw e)
  end.

(** [functionCount++] *)
Definition increment_functionCount : M unit := fun s =>
  (mkState (S (functionCount s)) (merged s) (stacks s) (world s) (trace s), Normal tt).

(** [merged = { ...merged, ...vars }] *)
Definition merge_variables (vars : gmap string string) : M unit := fun s =>
  (mkState (functionCount s) (vars ∪ merged s) (stacks s) (world s) (trace s),
   Normal tt).

(** [stacks[stackName] = page] *)
Definition store_page (stackName : string) (page : Page) : M unit := fun s =>
  (mkState (functionCount s) (merged s) (<[stackName := page]> (stacks s))
     (world s) (trace s),
   Normal tt).

Definition read_functionCount : M nat := fun s => (s, Normal (functionCount s)).

(** The body of the [for] loop, for one resource; [recurse] is
    [listStackResources] itself. *)
Definition visit (recurse : option string -> option bool -> M unit)
    (nested : bool) (page : Page) (resource : StackResourceSummary) : M Page :=
  (if bool_decide (ResourceType resource = "AWS::CloudFormation::Stack") && nested
   then
     match PhysicalResourceId resource with
     | None => throw (TypeError "Cannot read properties of undefined (reading 'split')")
     | Some id =>
         let nestedStack := split "/"%char id !! 1%nat in
         recurse nestedStack None
     end
   else ret tt) ;;;
  if bool_decide (ResourceType resource = "AWS::Lambda::Function") then
    increment_functionCount ;;;
    lambdaConfig <- getFunctionConfiguration_call (PhysicalResourceId resource) ;;
    match Environment lambdaConfig ≫= Variables with
    | Some vars =>
        let page := <[LogicalResourceId resource := vars]> page in
        merge_variables vars ;;;
        ret page
    | None => ret page
    end
  else ret page.

(** [for (let resource of summaries) { ... }] *)
Fixpoint for_of (body : Page -> StackResourceSummary -> M Page)
    (summaries : list StackResourceSummary) (page : Page) : M Page :=
  match summaries with
  | [] => ret page
  | resource :: rest => page <- body page resource ;; for_of body rest page
  end.

Fixpoint listStackResources (fuel : nat) (stackName : option string)
    (nested : option bool) : M unit :=
  match fuel with
  | O => out_of_fuel
  | S fuel' =>
      let nested := default true nested in
      let page : Page := ∅ in
      stackResources <- listStackResources_call stackName ;;
      page <- for_of (visit (listStackResources fuel') nested) stackResources page ;;
      console_log ("completed stack: " +:+ to_string stackName) ;;;
      count <- read_functionCount ;;
      console_log ("functionCount: " +:+ pretty count) ;;;
      if bool_decide (size page ≠ 0%nat) then store_page (to_string stackName) page
      else ret tt
  end.

(** *** Reading a trace *)

(** The variables of the functions whose configuration was fetched and
    declares variables, in the order of the calls. *)
Definition visited_variables (tr : list Event) : list (gmap string string) :=
  omap (fun e => match e with
                 | GetFunctionConfiguration _ (Fulfilled config) =>
                     Environment config ≫= Variables
                 | _ => None
                 end) tr.

(** The functions among the resources of a listing. *)
Definition is_function (resource : StackResourceSummary) : bool :=
  bool_decide (ResourceType resource = "AWS::Lambda::Function").

(** A configuration call for [resource] is in the trace. *)
Definition fetched (resource : StackResourceSummary) (tr : list Event) : Prop :=
  exists answer, GetFunctionConfiguration (PhysicalResourceId resource) answer ∈ tr.

Definition is_nested_stack (resource : StackResourceSummary) : bool :=
  bool_decide (ResourceType resource = "AWS::CloudFormation::Stack").

(** The function names of the configuration calls of a trace, in order. *)
Definition fetch_calls (tr : list Event) : list (option string) :=
  omap (fun e => match e with
                 | GetFunctionConfiguration FunctionName _ => Some FunctionName
                 | _ => None
                 end) tr.

(** The functions of a stack in listing order, those of a nested stack in
    the place of the nested-stack resource (depth first), for a directory
    whose answers do not change: [listing_of] gives the answer for each
    stack. *)
Fixpoint functions_depth_first (depth : nat)
    (listing_of : option string -> Settled (list StackResourceSummary))
    (stackName : option string) : list StackResourceSummary :=
  match depth, listing_of stackName with
  | S depth', Fulfilled summaries =>
      flat_map
        (fun resource =>
           (if is_nested_stack resource then
              match PhysicalResourceId resource with
              | Some id => functions_depth_first depth' listing_of (split "/" id !! 1%nat)
              | None => []
              end
            else []) ++
           (if is_function resource then [resource] else []))
        summaries
  | _, _ => []
  end.

Fixpoint count_functions (summaries : list StackResourceSummary) : nat :=
  match summaries with
  | [] => 0
  | resource :: rest =>
      (if is_function resource then 1 else 0) + count_functions rest
  end.

(** [{ ...merged, ...vars }] applied for each map of a list in turn. *)
Definition merge_all (merged : gmap string string) (maps : list (gmap string string))
  : gmap string string :=
  foldl (fun merged vars => vars ∪ merged) merged maps.

(** [s'] is reached from [s] by a part of a run whose events are [evs]:
    the trace grew by [evs], [merged] took the variables fetched in [evs]
    in order, and the counter did not decrease. *)
Definition advances (s s' : State) (evs : list Event) : Prop :=
  trace s' = trace s ++ evs
  /\ merged s' = merge_all (merged s) (visited_variables evs)
  /\ (functionCount s <= functionCount s')%nat.

(** A program whose every run is such a part. *)
Definition steady {A} (m : M A) : Prop :=
  forall s, exists evs, advances s (m s).1 evs.

(** The two console lines that end the processing of a stack. *)
Definition summary_lines (stackName : option string) (count : nat) : list Event :=
  [ConsoleLog ("completed stack: " +:+ to_string stackName);
   ConsoleLog ("functionCount: " +:+ pretty count)].

(** The stack names of the listing calls of a trace, in order. *)
Definition list_calls (tr : list Event) : list (option string) :=
  omap (fun e => match e with
                 | ListStackResources StackName _ => Some StackName
                 | _ => None
                 end) tr.

(** The event of a service call that was rejected with [e]. *)
Definition rejected_with (e : Error) (ev : Event) : Prop :=
  match ev with
  | ListStackResources _ (Rejected e') => e' = e
  | GetFunctionConfiguration _ (Rejected e') => e' = e
  | _ => False
  end.

(** The error of [undefined.split('/')]. *)
Definition split_of_undefined : Error :=
  TypeError "Cannot read properties of undefined (reading 'split')".

(** Where an error thrown by a part of a run with events [evs] comes from:
    the last event is a service call rejected with it, or it is the error
    of a nested-stack resource without a physical id. *)
Definition thrown_at (evs : list Event) (e : Error) : Prop :=
  (exists pre ev, evs = pre ++ [ev] /\ rejected_with e ev) \/ e = split_of_undefined.

(** A program whose every thrown error has such an origin. *)
Definition blames {A} (m : M A) : Prop :=
  forall s s' e, m s = (s', Throw e) ->
    exists evs, trace s' = trace s ++ evs /\ thrown_at evs e.

(** [rank] bounds the nesting: in every listing the directory can give,
    the stack a nested-stack resource points to has a smaller rank. *)
Definition well_nested (rank : option string -> nat) : Prop :=
  forall name w w' listing resource id,
    cloudformation_listStackResources name w = (w', Fulfilled listing) ->
    resource ∈ listing ->
    ResourceType resource = "AWS::CloudFormation::Stack" ->
    PhysicalResourceId resource = Some id ->
    (rank (split "/" id !! 1%nat) < rank name)%nat.

(** A relation between the state before a part of a run, its events and
    the state after it, that holds of no events and of two parts in a row
    when it holds of each. *)
Record composes (R : State -> list Event -> State -> Prop) : Prop := {
  composes_nil : forall s, R s [] s;
  composes_app : forall s1 evs1 s2 evs2 s3,
    R s1 evs1 s2 -> R s2 evs2 s3 -> R s1 (evs1 ++ evs2) s3
}.

(** Every run of [m] extends the trace and satisfies [R]. *)
Definition respects {A} (R : State -> list Event -> State -> Prop) (m : M A) : Prop :=
  forall s, exists evs, trace (m s).1 = trace s ++ evs /\ R s evs (m s).1.

(** No page stored in [stacks] is empty. *)
Definition pages_nonempty (s : State) : Prop :=
  forall stackName page, stacks s !! stackName = Some page -> page <> ∅.

(** *** The script around the traversal

    What the script prints and writes besides the traversal.  The text
    that [JSON.stringify] produces is not modelled: a report holds the map
    that is serialised. *)
Inductive Report : Type :=
| StackRequired
| Exit
| PrintMerged (merged : gmap string string)
| WriteFile (path : string) (Parameters : gmap string string) (err : option Error)
| WriteFailed (err : Error)
| WriteSuccessful
| Uncaught (err : Error).

(** [fs.writeFile(path, JSON.stringify({ Parameters }, null, 2), callback)]:
    the error passed to the callback, if any. *)
Variable fs_writeFile : string -> gmap string string -> World -> World * option Error.

Record Outcome := mkOutcome {
  final : State;
  reports : list Report;
  finished : bool
}.

(** The globals when the script starts. *)
Definition initial_state (w : World) : State := mkState 0 ∅ ∅ w [].

(** The script, from [process.argv]; [finished] is false when the
    traversal was cut. *)
Definition main (fuel : nat) (argv : list string) (w : World) : Outcome :=
  if (length argv <=? 2)%nat then
    mkOutcome (initial_state w) [StackRequired; Exit] true
  else
    let stackName := argv !! 2%nat in
    let output := argv !! 3%nat in
    match listStackResources fuel stackName None (initial_state w) with
    | (s, Normal _) =>
        match output with
        | Some path =>
            if bool_decide (path <> "") then
              let '(w', err) := fs_writeFile path (merged s) (world s) in
              mkOutcome
                (mkState (functionCount s) (merged s) (stacks s) w' (trace s))
                [PrintMerged (merged s);
                 WriteFile path (merged s) err;
                 match err with
                 | Some e => WriteFailed e
                 | None => WriteSuccessful
                 end]
                true
            else mkOutcome s [PrintMerged (merged s)] true
        | None => mkOutcome s [PrintMerged (merged s)] true
        end
    | (s, Throw e) => mkOutcome s [Uncaught e] true
    | (s, OutOfFuel) => mkOutcome s [] false
    end.

End Collector.

End GetVars.

(** ** An example deployment for the collector *)

Module CollectorExample.
Import GetVars.

Definition fn (logical physical : string) : StackResourceSummary :=
  mkResource "AWS::Lambda::Function" logical (Some physical).
Definition nestedStack (logical physical : string) : StackResourceSummary :=
  mkResource "AWS::CloudFormation::Stack" logical (Some physical).
Definition bucket (logical physical : string) : StackResourceSummary :=
  mkResource "AWS::S3::Bucket" logical (Some physical).

Definition child_arn : string :=
  "arn:aws:cloudformation:us-east-1:123456789012:stack/app-Child-1ABC/0a1b2c".

(** Stack [app]: a function, a nested stack and a second function;
    the nested stack holds a function and a bucket. *)
Definition listing (StackName : option string) (w : unit)
  : unit * Settled (list StackResourceSummary) :=
  if decide (StackName = Some "app") then
    (w, Fulfilled [fn "First" "app-First"; nestedStack "Child" child_arn;
                   fn "Second" "app-Second"])
  else if decide (StackName = Some "app-Child-1ABC") then
    (w, Fulfilled [fn "Inner" "app-Inner"; bucket "Assets" "app-assets"])
  else (w, Rejected (mkError "ValidationError" "Stack does not exist")).

Definition variables (vars : list (string * string)) : FunctionConfiguration :=
  mkConfiguration (Some (mkEnvironment (Some (list_to_map vars)))).

Definition configuration (FunctionName : option string) (w : unit)
  : unit * Settled FunctionConfiguration :=
  if decide (FunctionName = Some "app-First") then
    (w, Fulfilled (variables [("STAGE", "one"); ("TABLE", "orders")]))
  else if decide (FunctionName = Some "app-Inner") then
    (w, Fulfilled (variables [("STAGE", "two")]))
  else if decide (FunctionName = Some "app-Second") then
    (w, Fulfilled (variables [("STAGE", "three")]))
  else (w, Rejected (mkError "ResourceNotFoundException" "Function not found")).

Definition initial : @State unit := mkState 0 ∅ ∅ tt [].

(** A file system that accepts every write. *)
Definition saved (path : string) (Parameters : gmap string string) (w : unit)
  : unit * option Error :=
  (w, None).

(** A directory whose stack lists a nested stack that has no physical id
    yet. *)
Definition unfinished (StackName : option string) (w : unit)
  : unit * Settled (list StackResourceSummary) :=
  (w, Fulfilled [fn "First" "app-First";
                 mkResource "AWS::CloudFormation::Stack" "Child" None;
                 fn "Second" "app-Second"]).

(** The nesting depth of the stacks of [listing]. *)
Definition depth (StackName : option string) : nat :=
  if decide (StackName = Some "app") then 1 else 0.

End CollectorExample.

(** * Properties of the table replicator *)

Module ReplicatorSpec.
Import ImportDynamodbLocal.

(** ** Ceiling division *)

Lemma cdiv_gt (a b k : Z) : 0 < b -> k < cdiv a b <-> k * b < a.
Proof.
  intros Hb. unfold cdiv. split; intros H.
  - assert (k + 1 <= (a + b - 1) / b) as H1 by lia.
    assert (b * (k + 1) <= a + b - 1); [|lia].
    etransitivity; [apply Z.mul_le_mono_nonneg_l; [lia | exact H1]|].
    apply Z.mul_div_le. lia.
  - assert (k + 1 <= (a + b - 1) / b); [|lia].
    apply Z.div_le_lower_bound; lia.
Qed.

Lemma cdiv_le (a b k : Z) : 0 < b -> cdiv a b <= k <-> a <= k * b.
Proof. intros Hb. pose proof (cdiv_gt a b k Hb). lia. Qed.

Lemma cdiv_unique (a b q : Z) :
  0 < b -> (q - 1) * b < a -> a <= q * b -> cdiv a b = q.
Proof.
  intros Hb H1 H2.
  pose proof (proj2 (cdiv_gt a b (q - 1) Hb) H1).
  pose proof (proj2 (cdiv_le a b q Hb) H2). lia.
Qed.

Lemma cdiv_nonneg (a b : Z) : 0 < b -> 0 <= a -> 0 <= cdiv a b.
Proof.
  intros Hb Ha. unfold cdiv. apply Z.div_pos; lia.
Qed.

Section Chunking.
Context {Item : Type}.
Implicit Types (arr chunk : list Item) (n k : nat).

(** The slice a [next] takes is a window of the array. *)
Lemma slice_window arr n k :
  (1 <= n)%nat -> (k * n < length arr)%nat ->
  slice arr (Z.of_nat (k * n))
    (Z.min (Z.of_nat (k * n) + Z.of_nat n) (Z.of_nat (length arr)))
  = chunk_at n arr k.
Proof.
  intros Hn Hk. unfold slice, chunk_at.
  destruct (Z.ltb_spec (Z.of_nat (k * n)) 0) as [|_]; [lia|].
  destruct (Z.ltb_spec (Z.min (Z.of_nat (k * n) + Z.of_nat n) (Z.of_nat (length arr))) 0)
    as [|_]; [lia|].
  rewrite (Z.min_l (Z.of_nat (k * n))) by lia.
  rewrite Nat2Z.id.
  destruct (decide (k * n + n <= length arr)%nat) as [Hle|Hgt].
  - f_equal. lia.
  - rewrite (take_ge _ n) by (rewrite length_drop; lia).
    apply take_ge. rewrite length_drop. lia.
Qed.

Lemma take_min_length arr n : take (n `min` length arr) arr = take n arr.
Proof.
  destruct (decide (n <= length arr)%nat).
  - by rewrite Nat.min_l by lia.
  - rewrite Nat.min_r by lia. by rewrite !take_ge by lia.
Qed.

Lemma length_chunk_at arr n k :
  length (chunk_at n arr k) = (n `min` (length arr - k * n))%nat.
Proof. unfold chunk_at. by rewrite length_take, length_drop. Qed.

(** The first [m] windows, put end to end, are a prefix of the array. *)
Lemma concat_chunks arr n m :
  concat (map (chunk_at n arr) (seq 0 m)) = take (m * n) arr.
Proof.
  induction m as [|m IH]; [done|].
  rewrite seq_S, map_app, concat_app, IH. simpl.
  rewrite app_nil_r. unfold chunk_at. rewrite take_take_drop.
  f_equal. lia.
Qed.

Lemma length_concat_chunks arr n m :
  length (concat (map (chunk_at n arr) (seq 0 m))) = ((m * n) `min` length arr)%nat.
Proof. by rewrite concat_chunks, length_take. Qed.

Lemma windows_gt arr n k :
  (1 <= n)%nat -> (k < windows n arr)%nat <-> (k * n < length arr)%nat.
Proof.
  intros Hn. unfold windows.
  pose proof (cdiv_nonneg (Z.of_nat (length arr)) (Z.of_nat n)).
  pose proof (cdiv_gt (Z.of_nat (length arr)) (Z.of_nat n) (Z.of_nat k)).
  lia.
Qed.

Lemma windows_le_length arr n : (1 <= n)%nat -> (windows n arr <= length arr)%nat.
Proof.
  intros Hn. destruct (decide (windows n arr <= length arr)%nat) as [|Hgt]; [done|].
  assert (length arr < windows n arr)%nat as H%windows_gt by lia; [nia | done].
Qed.

Lemma next_window arr n k i :
  (1 <= n)%nat -> i = Z.of_nat (k * n) -> (k * n < length arr)%nat ->
  next (mkGenerator arr (Z.of_nat n) i)
  = Some (chunk_at n arr k, mkGenerator arr (Z.of_nat n) (Z.of_nat (S k * n))).
Proof.
  intros Hn -> Hk. unfold next; simpl.
  destruct (Z.ltb_spec (Z.of_nat (k * n)) (Z.of_nat (length arr))); [|lia].
  rewrite slice_window by done. do 3 f_equal. lia.
Qed.

Lemma next_exhausted arr n k i :
  i = Z.of_nat (k * n) -> (length arr <= k * n)%nat ->
  next (mkGenerator arr (Z.of_nat n) i) = None.
Proof.
  intros -> Hk. unfold next; simpl.
  destruct (Z.ltb_spec (Z.of_nat (k * n)) (Z.of_nat (length arr))); [lia|done].
Qed.

(** Taking every chunk from the state reached after [k] chunks. *)
Lemma drain_from arr n d : forall k fuel i,
  (1 <= n)%nat -> i = Z.of_nat (k * n) ->
  (k + d = windows n arr)%nat -> (d <= fuel)%nat ->
  drain fuel (mkGenerator arr (Z.of_nat n) i)
  = Some (map (chunk_at n arr) (seq k d)).
Proof.
  induction d as [|d IH]; intros k fuel i Hn Hi Hk Hfuel.
  - assert (length arr <= k * n)%nat as Hend.
    { pose proof (windows_gt arr n k Hn). lia. }
    destruct fuel; simpl; by rewrite (next_exhausted arr n k).
  - assert (k * n < length arr)%nat as Hlt by (apply windows_gt; lia).
    destruct fuel as [|fuel]; [lia|]. simpl.
    rewrite (next_window arr n k) by done.
    rewrite (IH (S k) fuel) by (done || lia). done.
Qed.

(** The size of the [k]-th chunk. *)
Lemma length_chunk_full arr n k :
  (1 <= n)%nat -> (S k < windows n arr)%nat -> length (chunk_at n arr k) = n.
Proof.
  intros Hn Hk%windows_gt; [|done]. rewrite length_chunk_at. lia.
Qed.

Lemma length_chunk_last arr n k :
  (1 <= n)%nat -> (S k = windows n arr)%nat ->
  Z.of_nat (length (chunk_at n arr k))
  = if decide (Z.of_nat (length arr) mod Z.of_nat n = 0) then Z.of_nat n
    else Z.of_nat (length arr) mod Z.of_nat n.
Proof.
  intros Hn Hk. rewrite length_chunk_at.
  assert (k * n < length arr)%nat as Hlo by (apply windows_gt; lia).
  assert (length arr <= S k * n)%nat as Hhi.
  { pose proof (windows_gt arr n (S k) Hn). lia. }
  destruct (decide (length arr = S k * n)%nat) as [Heq|Hne].
  - rewrite decide_True.
    + lia.
    + rewrite Heq, Nat2Z.inj_mul. apply Z.mod_mul. lia.
  - assert (Z.of_nat (length arr) mod Z.of_nat n = Z.of_nat (length arr - k * n)) as Hmod.
    { symmetry. apply (Z.mod_unique _ _ (Z.of_nat k)); lia. }
    rewrite Hmod, decide_False by lia. lia.
Qed.

(** C3.  For a stride [S >= 1] and an array of [N] elements, taking
    every chunk of [chunkArray arr S] ends (any fuel of at least [N]
    is enough) with exactly [ceil (N / S)] chunks; the [k]-th chunk is
    the contiguous window of [S] elements starting at [k * S]; every
    chunk but the last has [S] elements and the last has [N mod S], or
    [S] when [S] divides [N]; the chunks put end to end are the array. *)
Theorem chunkArray_chunks arr (stride : Z) (fuel : nat) :
  1 <= stride -> (length arr <= fuel)%nat ->
  exists chunks : list (list Item),
    drain fuel (chunkArray arr (Some stride)) = Some chunks
    /\ Z.of_nat (length chunks) = cdiv (Z.of_nat (length arr)) stride
    /\ concat chunks = arr
    /\ forall k chunk, chunks !! k = Some chunk ->
         chunk = take (Z.to_nat stride) (drop (k * Z.to_nat stride) arr)
         /\ Z.of_nat (length chunk)
            = if decide (S k < length chunks)%nat then stride
              else if decide (Z.of_nat (length arr) mod stride = 0) then stride
                   else Z.of_nat (length arr) mod stride.
Proof.
  intros Hstride Hfuel.
  assert (exists n, (1 <= n)%nat /\ stride = Z.of_nat n) as (n & Hn & ->)
    by (exists (Z.to_nat stride); lia).
  rewrite Nat2Z.id.
  pose proof (windows_le_length arr n Hn) as Hw.
  exists (map (chunk_at n arr) (seq 0 (windows n arr))).
  split; [|split; [|split]].
  - unfold chunkArray; simpl. apply (drain_from arr n _ 0%nat); (done || lia).
  - rewrite length_map, length_seq. unfold windows.
    pose proof (cdiv_nonneg (Z.of_nat (length arr)) (Z.of_nat n)). lia.
  - rewrite concat_chunks. apply take_ge.
    pose proof (windows_gt arr n (windows n arr) Hn). lia.
  - intros k chunk Hk. rewrite length_map, length_seq.
    rewrite list_lookup_fmap in Hk.
    destruct (seq 0 (windows n arr) !! k) as [j|] eqn:Hj; [|done].
    apply lookup_seq in Hj as [-> Hlt]. simpl in Hk.
    injection Hk as <-. split; [done|].
    destruct (decide (S k < windows n arr)%nat) as [Hfull|Hlast].
    + by rewrite length_chunk_full.
    + apply length_chunk_last; [done | lia].
Qed.

End Chunking.

Section BoundedImport.
Context {Item TableDescription World : Type}.
Variable send : Client -> @Command Item TableDescription -> World
                -> World * Settled (@Output Item TableDescription).
Variable tableName : string.
Variable limit : Z.
Implicit Types (arr : list Item) (n k : nat) (s : @State Item TableDescription World).

Local Abbreviation import_loop := (import_loop send tableName limit).
Local Abbreviation write_event := (@write_event Item TableDescription tableName).

(** The number of batches the import issues with stride [n]. *)
Local Abbreviation issued n arr :=
  (Z.to_nat (cdiv limit (Z.of_nat n)) `min` windows n arr)%nat.

Lemma import_loop_exhausted fuel g c s :
  next g = None -> import_loop fuel g c s = (s, Normal tt).
Proof. intros H. destruct fuel; simpl; by rewrite H. Qed.

Lemma import_loop_step fuel g c s chunk g' :
  next g = Some (chunk, g') ->
  import_loop (S fuel) g c s
  = bind (client_send send dynamodbLocalDocClient
            (BatchWriteItemCommand tableName (map PutRequest chunk)))
         (fun _ => if limit <=? c + Z.of_nat (length chunk) then ret tt
                   else import_loop fuel g' (c + Z.of_nat (length chunk))) s.
Proof. intros H. simpl. by rewrite H. Qed.

Lemma client_send_accepted s chunk :
  accepts_batches send tableName ->
  exists w' o,
    client_send send dynamodbLocalDocClient
      (BatchWriteItemCommand tableName (map PutRequest chunk)) s
    = (mkState w' (trace s ++ [write_event chunk]), Normal o).
Proof.
  intros Hok. destruct (Hok (map PutRequest chunk) (world s)) as (w' & o & Hsend).
  exists w', o. unfold client_send. by rewrite Hsend.
Qed.

(** The loop, from the state reached after [k] full chunks. *)
Lemma import_loop_from arr n d : forall k fuel i c s,
  accepts_batches send tableName ->
  (1 <= n)%nat -> i = Z.of_nat (k * n) ->
  c = Z.of_nat ((k * n) `min` length arr) -> c < limit ->
  (k + d = issued n arr)%nat -> (d <= fuel)%nat ->
  exists w',
    import_loop fuel (mkGenerator arr (Z.of_nat n) i) c s
    = (mkState w' (trace s ++ map write_event (map (chunk_at n arr) (seq k d))),
       Normal tt).
Proof.
  induction d as [|d IH]; intros k fuel i c s Hok Hn Hi Hc Hlim Hk Hfuel.
  - exists (world s). rewrite import_loop_exhausted.
    + simpl. rewrite app_nil_r. by destruct s.
    + apply (next_exhausted arr n k); [done|].
      destruct (decide (length arr <= k * n)%nat) as [|Hlt]; [done|].
      assert (k < windows n arr)%nat by (apply windows_gt; lia).
      assert (cdiv limit (Z.of_nat n) <= Z.of_nat k) as Hle by lia.
      apply cdiv_le in Hle; lia.
  - assert (k < windows n arr)%nat as Hlt%windows_gt by lia; [|done].
    assert (Z.of_nat k < cdiv limit (Z.of_nat n)) as HkL by lia.
    destruct fuel as [|fuel]; [lia|].
    rewrite (import_loop_step _ _ _ _ _ _ (next_window arr n k i Hn Hi Hlt)).
    unfold bind.
    destruct (client_send_accepted s (chunk_at n arr k) Hok) as (w1 & o & ->).
    rewrite length_chunk_at.
    destruct (Z.leb_spec limit (c + Z.of_nat (n `min` (length arr - k * n)))) as [Hstop|Hgo].
    + exists w1. unfold ret. simpl.
      assert (d = 0)%nat as ->; [|done].
      assert (cdiv limit (Z.of_nat n) <= Z.of_nat (S k)); [|lia].
      apply cdiv_le; lia.
    + edestruct (IH (S k) fuel (Z.of_nat (S k * n))
                   (c + Z.of_nat (n `min` (length arr - k * n)))
                   (mkState w1 (trace s ++ [write_event (chunk_at n arr k)])))
        as (w' & ->); try done; try lia.
      exists w'. simpl. by rewrite <- app_assoc.
Qed.

Lemma import_stride_nat :
  1 <= limit ->
  exists n, (1 <= n <= 25)%nat /\ import_stride limit = Z.of_nat n
            /\ (if 25 <? limit then 25 else limit) = Z.of_nat n.
Proof.
  intros HL. exists (Z.to_nat (import_stride limit)). unfold import_stride.
  destruct (Z.ltb_spec 25 limit); lia.
Qed.

(** [firstChunkCountReachingL] is the least multiple of the stride that is
    at least the limit: the running count after the first chunk that
    reaches it. *)
Lemma firstChunkCountReachingL_least :
  1 <= limit ->
  limit <= firstChunkCountReachingL limit
  /\ (exists q, 1 <= q /\ firstChunkCountReachingL limit = q * import_stride limit)
  /\ forall q, limit <= q * import_stride limit ->
       firstChunkCountReachingL limit <= q * import_stride limit.
Proof.
  intros HL. unfold firstChunkCountReachingL.
  assert (1 <= import_stride limit) as Hs.
  { unfold import_stride. destruct (Z.ltb_spec 25 limit); lia. }
  pose proof (proj1 (cdiv_le limit (import_stride limit) _ ltac:(lia)) (Z.le_refl _)) as Hle.
  pose proof (proj2 (cdiv_gt limit (import_stride limit) 0 ltac:(lia)) ltac:(lia)) as Hpos.
  split; [lia|]. split.
  - exists (cdiv limit (import_stride limit)). lia.
  - intros q Hq%cdiv_le; [nia | lia].
Qed.

(** With a stride of [min limit 25], the number of batches issued is
    [ceil (min F N / 25)], where [F = n * ceil (limit / n)]. *)
Lemma issued_count arr n :
  1 <= limit -> import_stride limit = Z.of_nat n ->
  Z.of_nat (issued n arr)
  = cdiv (Z.min (Z.of_nat n * cdiv limit (Z.of_nat n)) (Z.of_nat (length arr))) 25.
Proof.
  intros HL Hn. unfold windows.
  set (N := Z.of_nat (length arr)).
  assert (0 < Z.of_nat n <= 25) as Hn25.
  { rewrite <- Hn. unfold import_stride. destruct (Z.ltb_spec 25 limit); lia. }
  pose proof (cdiv_nonneg N (Z.of_nat n) ltac:(lia) ltac:(lia)) as HW0.
  pose proof (cdiv_nonneg limit (Z.of_nat n) ltac:(lia) ltac:(lia)) as HK0.
  pose proof (proj1 (cdiv_gt N (Z.of_nat n) (cdiv N (Z.of_nat n) - 1) ltac:(lia)) ltac:(lia)) as HW1.
  pose proof (proj1 (cdiv_le N (Z.of_nat n) (cdiv N (Z.of_nat n)) ltac:(lia)) ltac:(lia)) as HW2.
  symmetry. unfold import_stride in Hn.
  destruct (Z.ltb_spec 25 limit) as [Hbig|Hsmall].
  - rewrite <- Hn in *. apply cdiv_unique; lia.
  - rewrite <- Hn in *.
    assert (cdiv limit limit = 1) as HK by (apply cdiv_unique; lia).
    rewrite HK in *.
    destruct (decide (N = 0)) as [HN|HN].
    + rewrite HN in *. assert (cdiv 0 limit = 0) as -> by (apply cdiv_unique; lia).
      apply cdiv_unique; lia.
    + assert (0 < cdiv N limit) by (apply cdiv_gt; lia).
      apply cdiv_unique; lia.
Qed.

Lemma issued_total arr n :
  1 <= limit -> (1 <= n)%nat ->
  Z.of_nat ((issued n arr * n) `min` length arr)
  = Z.min (Z.of_nat n * cdiv limit (Z.of_nat n)) (Z.of_nat (length arr)).
Proof.
  intros HL Hn. unfold windows.
  pose proof (cdiv_nonneg (Z.of_nat (length arr)) (Z.of_nat n) ltac:(lia) ltac:(lia)) as HW0.
  pose proof (cdiv_nonneg limit (Z.of_nat n) ltac:(lia) ltac:(lia)) as HK0.
  pose proof (proj1 (cdiv_le (Z.of_nat (length arr)) (Z.of_nat n) _ ltac:(lia))
                (Z.le_refl _)) as HW2.
  remember (cdiv limit (Z.of_nat n)) as K eqn:HK.
  remember (cdiv (Z.of_nat (length arr)) (Z.of_nat n)) as W eqn:HW.
  rewrite Nat2Z.inj_min, Nat2Z.inj_mul, Nat2Z.inj_min, !Z2Nat.id by lia.
  destruct (decide (K <= W)) as [Hle|Hgt].
  - rewrite (Z.min_l K) by lia. lia.
  - rewrite (Z.min_r K) by lia.
    assert (W * Z.of_nat n <= K * Z.of_nat n) by nia. lia.
Qed.

Local Abbreviation importRemoteDataToLocalDynamoDB :=
  (importRemoteDataToLocalDynamoDB send tableName limit).

(** C2.  For a limit [L >= 1] and [N] items, on a local service that
    accepts every batch, the import ends normally (any fuel of at
    least [N] is enough) having issued batch writes and nothing else.
    The number of batch writes is [ceil (min F N / 25)], where [F] is
    [firstChunkCountReachingL L]; the items written are the first
    [min F N] items, in order; that total is at least [L] when
    [N >= L], is [N] when [N < L], and is at most [L + 24]; before each
    batch that was issued the running count was still below [L]. *)
Theorem bounded_import_counts (items : list Item) (fuel : nat) s :
  1 <= limit -> accepts_batches send tableName -> (length items <= fuel)%nat ->
  let N := Z.of_nat (length items) in
  let total := Z.min (firstChunkCountReachingL limit) N in
  exists w' (chunks : list (list Item)),
    importRemoteDataToLocalDynamoDB fuel items s
    = (mkState w' (trace s ++ map write_event chunks), Normal tt)
    /\ Z.of_nat (length chunks) = cdiv total 25
    /\ concat chunks = take (Z.to_nat total) items
    /\ Z.of_nat (length (concat chunks)) = total
    /\ (limit <= N -> limit <= total)
    /\ (N < limit -> total = N)
    /\ total <= limit + 24
    /\ forall j, (j < length chunks)%nat ->
         Z.of_nat (length (concat (take j chunks))) < limit.
Proof.
  intros HL Hok Hfuel N total.
  destruct (import_stride_nat HL) as (n & Hn & Hstride & Hstride').
  pose proof (windows_le_length items n ltac:(lia)) as Hw.
  destruct (import_loop_from items n (issued n items) 0%nat fuel 0 0 s)
    as (w' & Hrun); try done; try lia.
  exists w', (map (chunk_at n items) (seq 0 (issued n items))).
  assert (total = Z.of_nat ((issued n items * n) `min` length items)) as Htotal.
  { rewrite issued_total by lia. unfold total, firstChunkCountReachingL.
    by rewrite Hstride. }
  pose proof (cdiv_le limit (Z.of_nat n) (cdiv limit (Z.of_nat n)) ltac:(lia)) as HF1.
  pose proof (cdiv_gt limit (Z.of_nat n) (cdiv limit (Z.of_nat n) - 1) ltac:(lia)) as HF2.
  assert (limit <= firstChunkCountReachingL limit < limit + 25) as HF.
  { unfold firstChunkCountReachingL. rewrite Hstride. lia. }
  repeat split.
  - unfold importRemoteDataToLocalDynamoDB, chunkArray. simpl.
    rewrite Hstride'. exact Hrun.
  - rewrite length_map, length_seq, (issued_count items n HL Hstride).
    unfold total, firstChunkCountReachingL. by rewrite Hstride.
  - rewrite concat_chunks, Htotal, Nat2Z.id.
    symmetry. apply take_min_length.
  - by rewrite length_concat_chunks.
  - lia.
  - lia.
  - lia.
  - intros j Hj. rewrite length_map, length_seq in Hj.
    rewrite <- fmap_take, take_seq, Nat.min_l by lia.
    rewrite length_concat_chunks.
    assert (Z.of_nat j * Z.of_nat n < limit); [|lia].
    apply cdiv_gt; lia.
Qed.

(** C10.  For a limit [L] with [1 <= L <= 25] and a non-empty item
    list of [N] items, the import issues exactly one batch write,
    whatever the local service answers; the batch holds the first
    [min N L] items; when the service accepts the batch the import
    ends normally. *)
Theorem small_limit_single_batch (items : list Item) (fuel : nat) s :
  1 <= limit <= 25 -> items <> [] ->
  let N := Z.of_nat (length items) in
  exists w' r,
    importRemoteDataToLocalDynamoDB (S fuel) items s
    = (mkState w' (trace s ++ [write_event (take (Z.to_nat limit) items)]), r)
    /\ Z.of_nat (length (take (Z.to_nat limit) items)) = Z.min N limit
    /\ (accepts_batches send tableName -> r = Normal tt).
Proof.
  intros HL Hne N.
  assert (1 <= length items)%nat as HN by (destruct items; [done | simpl; lia]).
  destruct (import_stride_nat ltac:(lia)) as (n & Hn & Hstride & Hstride').
  assert (limit = Z.of_nat n) as Hlim.
  { rewrite <- Hstride. unfold import_stride. destruct (Z.ltb_spec 25 limit); lia. }
  unfold importRemoteDataToLocalDynamoDB, chunkArray. simpl default.
  rewrite Hstride'.
  rewrite (import_loop_step _ _ _ _ _ _
             (next_window items n 0 0 ltac:(lia) eq_refl ltac:(lia))).
  unfold chunk_at. change (0 * n)%nat with 0%nat. rewrite drop_0.
  replace (Z.to_nat limit) with n by lia.
  unfold bind, client_send.
  destruct (send dynamodbLocalDocClient
              (BatchWriteItemCommand tableName (map PutRequest (take n items)))
              (world s)) as [w' [o|e]] eqn:Hsend.
  - exists w', (Normal tt). rewrite length_take.
    split; [|split; [lia | done]].
    destruct (Z.leb_spec limit (0 + Z.of_nat (n `min` length items)));
      [done|].
    apply import_loop_exhausted, (next_exhausted items n 1); lia.
  - exists w', (Throw e). rewrite length_take.
    split; [done | split; [lia|]].
    intros Hok. destruct (Hok (map PutRequest (take n items)) (world s))
      as (w1 & o1 & Hsend'). congruence.
Qed.

End BoundedImport.

(** C1 (the code at limit 0).  With a limit of 0 the stride is 0, the
    first chunk is empty and the running count 0 already meets the
    limit: on a non-empty item list the import issues one batch write
    with no put request and stops, so no item is written, whatever the
    local service answers. *)
Theorem limit_zero_writes_nothing
  {Item TableDescription World : Type}
  (send : Client -> @Command Item TableDescription -> World
          -> World * Settled (@Output Item TableDescription))
  (tableName : string) (item : Item) (items : list Item) (fuel : nat)
  (s : @State Item TableDescription World) :
  exists w' r,
    importRemoteDataToLocalDynamoDB send tableName 0 (S fuel) (item :: items) s
    = (mkState w' (trace s ++ [Send dynamodbLocalDocClient (BatchWriteItemCommand tableName [])]), r)
    /\ r <> OutOfFuel.
Proof.
  unfold importRemoteDataToLocalDynamoDB, chunkArray. simpl.
  unfold bind, client_send.
  destruct (send dynamodbLocalDocClient (BatchWriteItemCommand tableName []) (world s))
    as [w' [o|e]]; exists w'; eexists; (split; [reflexivity | done]).
Qed.

Section Orchestration.
Context {Item TableDescription World : Type}.
Variable send : Client -> @Command Item TableDescription -> World
                -> World * Settled (@Output Item TableDescription).
Variable tableName : string.
Variable limit : Z.
Implicit Types (s : @State Item TableDescription World).

Local Abbreviation getTableDescriptionInfo := (getTableDescriptionInfo send).
Local Abbreviation client_send := (client_send send).
Local Abbreviation exportAndImport_try := (exportAndImport_try send tableName limit).
Local Abbreviation exportAndImportDynamoDBTable :=
  (exportAndImportDynamoDBTable send tableName limit).

(** The state after the opening console line. *)
Local Abbreviation started s :=
  (mkState (world s) (trace s ++ [ConsoleLog msg_start])).

Lemma client_send_trace c cmd s s' (r : Completion Output) :
  client_send c cmd s = (s', r) -> trace s' = trace s ++ [Send c cmd].
Proof.
  unfold client_send. destruct (send c cmd (world s)) as [w [o|e]];
    by intros [= <- _].
Qed.

(** C4.  The existence check issues one describe call.  When the call
    is fulfilled it returns the output; when it is rejected with an
    error named [ResourceNotFoundException] it returns [null]; when it
    is rejected with any other error it throws that same error.  So
    it returns [null] exactly when the service rejects the call with
    [ResourceNotFoundException]. *)
Theorem getTableDescriptionInfo_contract (tn : string) (client : Client) s :
  let answer := send client (DescribeTableCommand tn) (world s) in
  getTableDescriptionInfo tn client s
  = (mkState answer.1 (trace s ++ [Send client (DescribeTableCommand tn)]),
     match answer.2 with
     | Fulfilled description => Normal (Some description)
     | Rejected err =>
         if decide (name err = "ResourceNotFoundException") then Normal None
         else Throw err
     end)
  /\ ((getTableDescriptionInfo tn client s).2 = Normal None
      <-> exists err, answer.2 = Rejected err
                      /\ name err = "ResourceNotFoundException").
Proof.
  intros answer. subst answer.
  unfold getTableDescriptionInfo, try_catch, bind, ImportDynamodbLocal.client_send.
  destruct (send client (DescribeTableCommand tn) (world s)) as [w [o|e]]; simpl.
  - split; [done|]. split; [done | by intros (err & [=] & _)].
  - unfold ret, throw.
    destruct (decide (name e = "ResourceNotFoundException")) as [Hname|Hname]; simpl.
    + split; [done|]. split; [by exists e | done].
    + split; [done|]. split; [done | intros (err & [= <-] & Herr); done].
Qed.

Lemma getTableDescriptionInfo_trace tn client s s' r :
  getTableDescriptionInfo tn client s = (s', r) ->
  trace s' = trace s ++ [Send client (DescribeTableCommand tn)].
Proof.
  unfold getTableDescriptionInfo, ImportDynamodbLocal.getTableDescriptionInfo.
  unfold try_catch, bind, ImportDynamodbLocal.client_send.
  destruct (send client (DescribeTableCommand tn) (world s)) as [w [o|e]]; simpl.
  - by intros [= <- _].
  - unfold ret, throw. destruct (decide (name e = "ResourceNotFoundException"));
      by intros [= <- _].
Qed.

(** The import issues batch writes and nothing else. *)
Lemma import_loop_trace fuel : forall g c s,
  exists chunks,
    trace (import_loop send tableName limit fuel g c s).1
    = trace s ++ map (write_event tableName) chunks.
Proof.
  induction fuel as [|fuel IH]; intros g c s.
  - exists []. simpl. rewrite app_nil_r. by destruct (next g) as [[]|].
  - destruct (next g) as [[chunk g']|] eqn:Hnext.
    + rewrite (import_loop_step _ _ _ _ _ _ _ _ _ Hnext). unfold bind.
      destruct (ImportDynamodbLocal.client_send _ _ _ s) as [s1 r] eqn:Hsend.
      apply client_send_trace in Hsend.
      destruct r as [o|e|].
      * destruct (limit <=? c + Z.of_nat (length chunk)).
        -- exists [chunk]. simpl. by rewrite Hsend.
        -- destruct (IH g' (c + Z.of_nat (length chunk)) s1) as [chunks ->].
           exists (chunk :: chunks). rewrite Hsend. simpl. by rewrite <- app_assoc.
      * exists [chunk]. simpl. by rewrite Hsend.
      * exists [chunk]. simpl. by rewrite Hsend.
    + exists []. rewrite import_loop_exhausted by done. simpl. by rewrite app_nil_r.
Qed.

Lemma create_calls_writes (chunks : list (list Item)) :
  create_calls (map (@write_event Item TableDescription tableName) chunks) = [].
Proof. by induction chunks. Qed.

Lemma create_calls_app (tr1 tr2 : list (@Event Item TableDescription)) :
  create_calls (tr1 ++ tr2) = create_calls tr1 ++ create_calls tr2.
Proof. apply omap_app. Qed.

Lemma import_trace fuel (items : list Item) s s' r :
  importRemoteDataToLocalDynamoDB send tableName limit fuel items s = (s', r) ->
  exists chunks, trace s' = trace s ++ map (write_event tableName) chunks.
Proof.
  intros Hrun. unfold importRemoteDataToLocalDynamoDB in Hrun.
  edestruct import_loop_trace as [chunks Hchunks].
  rewrite Hrun in Hchunks. by exists chunks.
Qed.

(** From the scan on, the run issues the scan, batch writes and
    console lines: no create-table. *)
Lemma after_scan_trace fuel s :
  exists evs,
    trace ((tableData <- client_send dynamodbClient (ScanCommand tableName) ;;
            match Items tableData with
            | None => console_log (msg_empty tableName)
            | Some items =>
                if Z.of_nat (length items) =? 0 then console_log (msg_empty tableName)
                else
                  importRemoteDataToLocalDynamoDB send tableName limit fuel items ;;;
                  console_log (msg_done tableName)
            end) s).1
    = trace s ++ evs
    /\ create_calls evs = [].
Proof.
  unfold bind.
  destruct (client_send dynamodbClient (ScanCommand tableName) s)
    as [s4 [tableData|e|]] eqn:Hscan;
    apply client_send_trace in Hscan; simpl;
    try (eexists; split; [exact Hscan | done]).
  assert (exists evs, trace (console_log (msg_empty tableName) s4).1 = trace s ++ evs
                      /\ create_calls evs = []) as Hempty.
  { simpl. rewrite Hscan, <- app_assoc. eexists; split; [reflexivity | done]. }
  destruct (Items tableData) as [items|]; [|done].
  destruct (Z.of_nat (length items) =? 0); [done|].
  destruct (importRemoteDataToLocalDynamoDB send tableName limit fuel items s4)
    as [s5 r] eqn:Himport.
  destruct (import_trace _ _ _ _ _ Himport) as [chunks Hchunks].
  destruct r; simpl; rewrite Hchunks, Hscan, <- !app_assoc;
    (eexists; split; [reflexivity|]);
    rewrite !create_calls_app, create_calls_writes; done.
Qed.

(** C5.  In a run where the remote describe returned a description and
    the local describe returned normally, the create-table calls of
    the whole run are: none when the local describe returned a
    description; exactly one when it returned [null], sent to the
    local endpoint with the [Table] of the remote description as its
    input. *)
Theorem create_table_policy (fuel : nat) s s1 s2
    (remoteTableDescription : Output) (localTableDescription : option Output) :
  getTableDescriptionInfo tableName dynamodbDocClient (started s)
  = (s1, Normal (Some remoteTableDescription)) ->
  getTableDescriptionInfo tableName dynamodbLocalDocClient s1
  = (s2, Normal localTableDescription) ->
  exists evs,
    trace (exportAndImportDynamoDBTable fuel s).1 = trace s ++ evs
    /\ create_calls evs
       = match localTableDescription with
         | Some _ => []
         | None => [(dynamodbLocalDocClient, Table remoteTableDescription)]
         end.
Proof.
  intros Hremote Hlocal.
  pose proof (getTableDescriptionInfo_trace _ _ _ _ _ Hremote) as Ht1.
  pose proof (getTableDescriptionInfo_trace _ _ _ _ _ Hlocal) as Ht2.
  simpl in Ht1.
  unfold exportAndImportDynamoDBTable, ImportDynamodbLocal.exportAndImportDynamoDBTable.
  unfold bind at 1. unfold console_log at 1, emit at 1.
  unfold try_catch, ImportDynamodbLocal.exportAndImport_try.
  unfold bind at 1. rewrite Hremote.
  unfold bind at 1. rewrite Hlocal.
  unfold bind at 1.
  destruct localTableDescription as [description|].
  - unfold ret at 1.
    destruct (after_scan_trace fuel s2) as (evs & Hevs & Hnone).
    match type of Hevs with trace (?m s2).1 = _ =>
      destruct (m s2) as [s' r] end.
    simpl in Hevs.
    destruct r; simpl; rewrite Hevs, Ht2, Ht1, <- !app_assoc;
      (eexists; split; [reflexivity|]); simpl;
      rewrite ?create_calls_app, Hnone; done.
  - unfold bind at 1.
    destruct (client_send dynamodbLocalDocClient
                (CreateTableCommand (Table remoteTableDescription)) s2)
      as [s3 r3] eqn:Hcreate.
    apply client_send_trace in Hcreate.
    destruct r3 as [o|e|]; simpl.
    + destruct (after_scan_trace fuel s3) as (evs & Hevs & Hnone).
      match type of Hevs with trace (?m s3).1 = _ =>
        destruct (m s3) as [s' r] end.
      simpl in Hevs.
      destruct r; simpl; rewrite Hevs, Hcreate, Ht2, Ht1, <- !app_assoc;
        (eexists; split; [reflexivity|]); simpl;
        rewrite ?create_calls_app, Hnone; done.
    + rewrite Hcreate, Ht2, Ht1, <- !app_assoc.
      eexists; split; [reflexivity | done].
    + rewrite Hcreate, Ht2, Ht1, <- !app_assoc.
      eexists; split; [reflexivity | done].
Qed.

(** C6.  In a run where the remote describe reports the table absent,
    the block under [try] throws [new Error] with the message that
    tells the operator to create the table first; the run prints the
    opening line, issues the remote describe, prints that error to
    standard error and ends: no create-table, scan or batch write is
    issued. *)
Theorem missing_remote_table_fails (fuel : nat) s s1 :
  getTableDescriptionInfo tableName dynamodbDocClient (started s) = (s1, Normal None) ->
  let err := new_Error
    ("Table " +:+ dquote +:+ tableName +:+ dquote +:+
     " does not exist in the remote DynamoDB, Please create the table first before exporting and importing it to local DynamoDB.") in
  exportAndImport_try fuel (started s) = (s1, Throw err)
  /\ exportAndImportDynamoDBTable fuel s
     = (mkState (world s1)
          (trace s ++ [ConsoleLog msg_start;
                       Send dynamodbDocClient (DescribeTableCommand tableName);
                       ConsoleError err]),
        Normal tt)
  /\ create_calls (trace (exportAndImportDynamoDBTable fuel s).1) = create_calls (trace s)
  /\ scan_calls (trace (exportAndImportDynamoDBTable fuel s).1) = scan_calls (trace s)
  /\ batch_calls (trace (exportAndImportDynamoDBTable fuel s).1) = batch_calls (trace s).
Proof.
  intros Hremote err.
  pose proof (getTableDescriptionInfo_trace _ _ _ _ _ Hremote) as Ht1.
  simpl in Ht1.
  assert (exportAndImport_try fuel (started s) = (s1, Throw err)) as Htry.
  { unfold exportAndImport_try, ImportDynamodbLocal.exportAndImport_try.
    unfold bind at 1. by rewrite Hremote. }
  assert (exportAndImportDynamoDBTable fuel s
          = (mkState (world s1)
               (trace s ++ [ConsoleLog msg_start;
                            Send dynamodbDocClient (DescribeTableCommand tableName);
                            ConsoleError err]),
             Normal tt)) as Hrun.
  { unfold exportAndImportDynamoDBTable, ImportDynamodbLocal.exportAndImportDynamoDBTable.
    unfold bind at 1. unfold console_log at 1, emit at 1.
    unfold try_catch. rewrite Htry.
    unfold console_error, emit. by rewrite Ht1, <- !app_assoc. }
  split; [done|]. split; [done|]. rewrite Hrun. simpl.
  unfold create_calls, scan_calls, batch_calls.
  rewrite !omap_app. simpl. by rewrite !app_nil_r.
Qed.

(** C7.  In a run that reaches the scan and whose scan returns no
    items ([Items] missing or empty), the run prints the empty-table
    line and ends normally; it issues no batch write and prints
    nothing to standard error. *)
Theorem empty_source_short_circuit (fuel : nat) s s1 s2 s3 s4
    (remoteTableDescription : Output) (localTableDescription : option Output)
    (tableData : Output) :
  getTableDescriptionInfo tableName dynamodbDocClient (started s)
  = (s1, Normal (Some remoteTableDescription)) ->
  getTableDescriptionInfo tableName dynamodbLocalDocClient s1
  = (s2, Normal localTableDescription) ->
  match localTableDescription with
  | Some _ => s3 = s2
  | None => exists created,
      client_send dynamodbLocalDocClient
        (CreateTableCommand (Table remoteTableDescription)) s2
      = (s3, Normal created)
  end ->
  client_send dynamodbClient (ScanCommand tableName) s3 = (s4, Normal tableData) ->
  Items tableData = None \/ Items tableData = Some [] ->
  exportAndImportDynamoDBTable fuel s
  = (mkState (world s4) (trace s4 ++ [ConsoleLog (msg_empty tableName)]), Normal tt)
  /\ exists evs,
       trace (exportAndImportDynamoDBTable fuel s).1 = trace s ++ evs
       /\ batch_calls evs = [] /\ console_errors evs = [].
Proof.
  intros Hremote Hlocal Hcreate Hscan Hitems.
  pose proof (getTableDescriptionInfo_trace _ _ _ _ _ Hremote) as Ht1.
  pose proof (getTableDescriptionInfo_trace _ _ _ _ _ Hlocal) as Ht2.
  pose proof (client_send_trace _ _ _ _ _ Hscan) as Ht4.
  simpl in Ht1.
  assert (exportAndImportDynamoDBTable fuel s
          = (mkState (world s4) (trace s4 ++ [ConsoleLog (msg_empty tableName)]),
             Normal tt)) as Hrun.
  { unfold exportAndImportDynamoDBTable, ImportDynamodbLocal.exportAndImportDynamoDBTable.
    unfold bind at 1. unfold console_log at 1, emit at 1.
    unfold try_catch, ImportDynamodbLocal.exportAndImport_try.
    unfold bind at 1. rewrite Hremote.
    unfold bind at 1. rewrite Hlocal.
    unfold bind at 1.
    assert ((match localTableDescription with
             | Some _ => ret tt
             | None =>
                 client_send dynamodbLocalDocClient
                   (CreateTableCommand (Table remoteTableDescription)) ;;; ret tt
             end) s2 = (s3, Normal tt)) as ->.
    { destruct localTableDescription as [description|].
      - by subst s3.
      - destruct Hcreate as [created Hcreate]. unfold bind. by rewrite Hcreate. }
    unfold bind at 1. rewrite Hscan.
    by destruct Hitems as [-> | ->]. }
  split; [done|]. rewrite Hrun. simpl.
  assert (exists pre, trace s3 = trace s2 ++ pre /\ batch_calls pre = []
                      /\ console_errors pre = []) as (pre & Ht3 & Hb & He).
  { destruct localTableDescription as [description|].
    - subst s3. exists []. by rewrite app_nil_r.
    - destruct Hcreate as [created Hcreate%client_send_trace]. by eexists. }
  rewrite Ht4, Ht3, Ht2, Ht1, <- !app_assoc.
  eexists; split; [reflexivity|].
  unfold batch_calls, console_errors in *. simpl.
  rewrite !omap_app, Hb, He. done.
Qed.

End Orchestration.

(** ** The theorems at concrete inputs *)

Section Witnesses.
Import ReplicatorExample.

Lemma chunkArray_chunks_witness :
  exists chunks : list (list nat),
    drain 7 (chunkArray [1; 2; 3; 4; 5; 6; 7]%nat (Some 3)) = Some chunks
    /\ chunks = [[1; 2; 3]; [4; 5; 6]; [7]]%nat.
Proof.
  destruct (chunkArray_chunks [1; 2; 3; 4; 5; 6; 7]%nat 3 7) as (chunks & Hd & _);
    [lia | simpl; lia |].
  exists chunks. split; [exact Hd|].
  vm_compute in Hd. by injection Hd as <-.
Defined.

Lemma bounded_import_counts_witness :
  exists w' chunks,
    importRemoteDataToLocalDynamoDB store_send "Orders" 30 40 (seq 0 40) (fresh [])
    = (mkState w' (map (write_event "Orders") chunks), Normal tt)
    /\ length chunks = 2%nat
    /\ length (concat chunks) = 40%nat.
Proof.
  destruct (bounded_import_counts store_send "Orders" 30 (seq 0 40) 40 (fresh []))
    as (w' & chunks & Hrun & Hcount & _ & Htotal & _).
  - lia.
  - intros reqs w. by eexists _, _.
  - simpl. lia.
  - exists w', chunks. split; [exact Hrun|].
    change (cdiv _ 25) with 2 in Hcount.
    change (Z.min _ _) with 40 in Htotal. lia.
Defined.

Lemma small_limit_single_batch_witness :
  exists w' r,
    importRemoteDataToLocalDynamoDB store_send "Orders" 3 1 [1; 2; 3; 4; 5]%nat (fresh [])
    = (mkState w' [write_event "Orders" [1; 2; 3]%nat], r)
    /\ (accepts_batches store_send "Orders" -> r = Normal tt).
Proof.
  destruct (small_limit_single_batch store_send "Orders" 3 [1; 2; 3; 4; 5]%nat 0 (fresh []))
    as (w' & r & Hrun & _ & Hok).
  - lia.
  - done.
  - by exists w', r.
Defined.

Lemma create_table_policy_witness :
  exists evs,
    trace (exportAndImportDynamoDBTable table_send "Orders" 500 3 (fresh source)).1
    = evs
    /\ create_calls evs = [(dynamodbLocalDocClient, Some "orders-schema")].
Proof.
  refine (create_table_policy table_send "Orders" 500 3 (fresh source) _ _
            (described "orders-schema") None _ _); reflexivity.
Defined.

Lemma missing_remote_table_fails_witness :
  exists err,
    console_errors
      (trace (exportAndImportDynamoDBTable table_send "Orders" 500 3 (fresh no_source)).1)
    = [err]
    /\ name err = "Error".
Proof.
  destruct (missing_remote_table_fails table_send "Orders" 500 3 (fresh no_source)
              (mkState no_source
                 [ConsoleLog msg_start;
                  Send dynamodbDocClient (DescribeTableCommand "Orders")]))
    as (_ & Hrun & _); [reflexivity|].
  rewrite Hrun. by eexists.
Defined.

Lemma empty_source_short_circuit_witness :
  exists s',
    exportAndImportDynamoDBTable table_send "Orders" 500 3 (fresh empty_source)
    = (s', Normal tt)
    /\ batch_calls (trace s') = [].
Proof.
  destruct (empty_source_short_circuit table_send "Orders" 500 3 (fresh empty_source)
              empty_described empty_checked empty_created empty_scanned
              (described "orders-schema") None (scanned []))
    as (Hrun & evs & Hevs & Hnone & _).
  - reflexivity.
  - reflexivity.
  - eexists. reflexivity.
  - reflexivity.
  - by right.
  - eexists. split; [exact Hrun | reflexivity].
Defined.

End Witnesses.

End ReplicatorSpec.

(** * Properties of the environment collector *)

Module CollectorSpec.
Import GetVars.

Section Collector.
Context {World : Type}.
Variable cloudformation_listStackResources :
  option string -> World -> World * Settled (list StackResourceSummary).
Variable lambda_getFunctionConfiguration :
  option string -> World -> World * Settled FunctionConfiguration.
Implicit Types (s : @State World) (page : Page) (evs : list Event).

Local Abbreviation listStackResources :=
  (listStackResources cloudformation_listStackResources lambda_getFunctionConfiguration).
Local Abbreviation visit := (visit lambda_getFunctionConfiguration).

(** ** Parts of a run compose *)

Lemma visited_variables_app evs1 evs2 :
  visited_variables (evs1 ++ evs2) = visited_variables evs1 ++ visited_variables evs2.
Proof. apply omap_app. Qed.

Lemma advances_refl s : advances s s [].
Proof. unfold advances. simpl. by rewrite app_nil_r. Qed.

Lemma advances_trans s1 s2 s3 evs1 evs2 :
  advances s1 s2 evs1 -> advances s2 s3 evs2 -> advances s1 s3 (evs1 ++ evs2).
Proof.
  intros (Ht1 & Hm1 & Hc1) (Ht2 & Hm2 & Hc2). unfold advances, merge_all in *.
  rewrite Ht2, Ht1, Hm2, Hm1, visited_variables_app, foldl_app, app_assoc.
  split; [done | split; [done | lia]].
Qed.

Lemma steady_bind {A B} (m : @M World A) (k : A -> @M World B) :
  steady m -> (forall a, steady (k a)) -> steady (bind m k).
Proof.
  intros Hm Hk s. unfold bind. destruct (Hm s) as [evs1 H1].
  destruct (m s) as [s1 [a|e|]]; simpl in H1; [|by exists evs1..].
  destruct (Hk a s1) as [evs2 H2]. exists (evs1 ++ evs2). by eapply advances_trans.
Qed.

Lemma steady_ret {A} (a : A) : steady (ret a : @M World A).
Proof. intros s. exists []. apply advances_refl. Qed.

Lemma steady_throw {A} e : steady (throw e : @M World A).
Proof. intros s. exists []. apply advances_refl. Qed.

Lemma steady_console_log line : steady (@console_log World line).
Proof. intros s. exists [ConsoleLog line]. by repeat split. Qed.

Lemma steady_listStackResources_call name :
  steady (listStackResources_call cloudformation_listStackResources name).
Proof.
  intros s. unfold listStackResources_call.
  destruct (cloudformation_listStackResources name (world s)) as [w [rs|e]];
    eexists [_]; by repeat split.
Qed.

Lemma steady_increment : steady (@increment_functionCount World).
Proof.
  intros s. exists []. unfold advances. simpl. rewrite app_nil_r.
  split; [done | split; [done | lia]].
Qed.

Lemma steady_store_page name page : steady (@store_page World name page).
Proof. intros s. exists []. unfold advances. simpl. by rewrite app_nil_r. Qed.

Lemma steady_read : steady (@read_functionCount World).
Proof. intros s. exists []. apply advances_refl. Qed.

(** The second half of the loop body: count, fetch, record, merge. *)
Lemma steady_collect page resource :
  steady (increment_functionCount ;;;
          lambdaConfig <- getFunctionConfiguration_call lambda_getFunctionConfiguration
                            (PhysicalResourceId resource) ;;
          match Environment lambdaConfig ≫= Variables with
          | Some vars =>
              merge_variables vars ;;;
              ret (<[LogicalResourceId resource := vars]> page)
          | None => ret page
          end).
Proof.
  intros s. unfold bind, increment_functionCount, getFunctionConfiguration_call. simpl.
  destruct (lambda_getFunctionConfiguration (PhysicalResourceId resource) (world s))
    as [w [config|e]]; simpl.
  - destruct config as [[[[vars|]]|]]; simpl;
      eexists [_]; unfold advances; simpl; (split; [done | split; [done | lia]]).
  - eexists [_]. unfold advances. simpl. split; [done | split; [done | lia]].
Qed.

Lemma steady_visit (recurse : option string -> option bool -> @M World unit)
    nested page resource :
  (forall name flag, steady (recurse name flag)) ->
  steady (visit recurse nested page resource).
Proof.
  intros Hrec. unfold visit, GetVars.visit.
  apply steady_bind.
  - destruct (_ && nested); [|apply steady_ret].
    destruct (PhysicalResourceId resource); [apply Hrec | apply steady_throw].
  - intros _. case_bool_decide; [apply steady_collect | apply steady_ret].
Qed.

Lemma steady_for_of (body : Page -> StackResourceSummary -> @M World Page) summaries :
  (forall page resource, steady (body page resource)) ->
  forall page, steady (for_of body summaries page).
Proof.
  intros Hbody. induction summaries as [|resource rest IH]; intros page; simpl.
  - apply steady_ret.
  - apply steady_bind; [apply Hbody | apply IH].
Qed.

Lemma steady_listStackResources fuel : forall name nested,
  steady (listStackResources fuel name nested).
Proof.
  induction fuel as [|fuel IH]; intros name nested; simpl.
  - intros s. exists []. apply advances_refl.
  - apply steady_bind; [apply steady_listStackResources_call|]. intros summaries.
    apply steady_bind.
    { apply steady_for_of. intros page resource. by apply steady_visit. }
    intros page. apply steady_bind; [apply steady_console_log|]. intros _.
    apply steady_bind; [apply steady_read|]. intros count.
    apply steady_bind; [apply steady_console_log|]. intros _.
    case_bool_decide; [apply steady_store_page | apply steady_ret].
Qed.

(** ** Last write wins *)

Lemma merge_all_keeps (m : gmap string string) after X v :
  m !! X = Some v -> Forall (fun later : gmap string string => later !! X = None) after ->
  merge_all m after !! X = Some v.
Proof.
  intros Hm Hafter. revert m Hm.
  induction Hafter as [|later after Hlater _ IH]; intros m Hm; [done|].
  simpl. apply IH. by rewrite lookup_union_r.
Qed.

Lemma merge_all_last (m : gmap string string) before vars after X v :
  vars !! X = Some v -> Forall (fun later : gmap string string => later !! X = None) after ->
  merge_all m (before ++ vars :: after) !! X = Some v.
Proof.
  intros Hvars Hafter. unfold merge_all. rewrite foldl_app. simpl.
  apply merge_all_keeps; [|done]. by apply lookup_union_Some_l.
Qed.

(** C8.  In a traversal whose configuration calls return, in this order,
    the variables of a function F1 that defines [X] as [v1] and later
    those of a function F2 that defines [X] as a different [v2], and no
    function visited after F2 defines [X], the merged map gives [v2] for
    [X] when the traversal ends. *)
Theorem last_write_wins (fuel : nat) stackName nested s s' r evs
    (before between after : list (gmap string string)) (F1 F2 : gmap string string)
    (X v1 v2 : string) :
  listStackResources fuel stackName nested s = (s', r) ->
  trace s' = trace s ++ evs ->
  visited_variables evs = before ++ F1 :: between ++ F2 :: after ->
  F1 !! X = Some v1 -> F2 !! X = Some v2 -> v1 <> v2 ->
  Forall (fun later : gmap string string => later !! X = None) after ->
  merged s' !! X = Some v2.
Proof.
  intros Hrun Htrace Hvisited _ HF2 _ Hafter.
  destruct (steady_listStackResources fuel stackName nested s) as (evs' & Ht & Hm & _).
  rewrite Hrun in Ht, Hm. simpl in Ht, Hm.
  rewrite Htrace in Ht. apply app_inv_head in Ht as <-.
  rewrite Hm, Hvisited.
  replace (before ++ F1 :: between ++ F2 :: after)
    with ((before ++ F1 :: between) ++ F2 :: after) by (by rewrite <- app_assoc).
  by apply merge_all_last.
Qed.

(** ** A run that ends normally, taken apart *)

Lemma for_of_app_inv (body : Page -> StackResourceSummary -> @M World Page)
    before after : forall page s s' page',
  for_of body (before ++ after) page s = (s', Normal page') ->
  exists s1 page1,
    for_of body before page s = (s1, Normal page1)
    /\ for_of body after page1 s1 = (s', Normal page').
Proof.
  induction before as [|resource before IH]; intros page s s' page' Hrun; simpl in *.
  - by exists s, page.
  - unfold bind in *. destruct (body page resource s) as [s0 [page0|e|]]; [|done..].
    by apply IH.
Qed.

Lemma fetched_app_l resource evs1 evs2 : fetched resource evs1 -> fetched resource (evs1 ++ evs2).
Proof. intros [answer H]. exists answer. apply elem_of_app. by left. Qed.

Lemma fetched_app_r resource evs1 evs2 : fetched resource evs2 -> fetched resource (evs1 ++ evs2).
Proof. intros [answer H]. exists answer. apply elem_of_app. by right. Qed.

(** The loop body on a nested stack is the recursive call. *)
Lemma visit_nested (recurse : option string -> option bool -> @M World unit)
    page resource id s s' page' :
  ResourceType resource = "AWS::CloudFormation::Stack" ->
  PhysicalResourceId resource = Some id ->
  visit recurse true page resource s = (s', Normal page') ->
  recurse (split "/" id !! 1%nat) None s = (s', Normal tt) /\ page' = page.
Proof.
  intros Htype Hid. unfold visit, GetVars.visit. rewrite Htype, Hid. simpl.
  unfold bind. destruct (recurse _ None s) as [s1 [[]|e|]]; [|done..].
  by intros [= <- <-].
Qed.

(** The loop body counts and fetches every function. *)
Lemma visit_counts (recurse : option string -> option bool -> @M World unit)
    nested page resource s s' page' :
  (forall name flag, steady (recurse name flag)) ->
  visit recurse nested page resource s = (s', Normal page') ->
  exists evs,
    trace s' = trace s ++ evs
    /\ (functionCount s + (if is_function resource then 1 else 0) <= functionCount s')%nat
    /\ (is_function resource = true -> fetched resource evs).
Proof.
  intros Hrec Hrun. unfold is_function.
  destruct (bool_decide (ResourceType resource = "AWS::Lambda::Function")) eqn:Hfn.
  - apply bool_decide_eq_true in Hfn.
    revert Hrun. unfold visit, GetVars.visit. rewrite Hfn. simpl.
    unfold bind, ret, increment_functionCount, getFunctionConfiguration_call. simpl.
    destruct (lambda_getFunctionConfiguration (PhysicalResourceId resource) (world s))
      as [w [config|e]]; [|done].
    destruct (Environment config ≫= Variables) as [vars|]; simpl;
      intros [= <- _]; simpl; eexists [_];
      (split; [done | split; [lia|]]); intros _; eexists; apply list_elem_of_singleton; done.
  - destruct (steady_visit recurse nested page resource Hrec s) as (evs & Ht & _ & Hc).
    rewrite Hrun in Ht, Hc. simpl in Ht, Hc. exists evs.
    split; [done | split; [lia | done]].
Qed.

Lemma for_of_counts (recurse : option string -> option bool -> @M World unit)
    nested summaries : forall page s s' page',
  (forall name flag, steady (recurse name flag)) ->
  for_of (visit recurse nested) summaries page s = (s', Normal page') ->
  exists evs,
    trace s' = trace s ++ evs
    /\ (functionCount s + count_functions summaries <= functionCount s')%nat
    /\ forall resource, resource ∈ summaries -> is_function resource = true ->
         fetched resource evs.
Proof.
  induction summaries as [|first rest IH]; intros page s s' page' Hrec Hrun; simpl in *.
  - injection Hrun as <- _. exists []. rewrite app_nil_r.
    split; [done | split; [lia|]]. by intros resource Hin%elem_of_nil.
  - unfold bind in Hrun.
    destruct (visit recurse nested page first s) as [s1 [page1|e|]] eqn:Hfirst; [|done..].
    destruct (visit_counts _ _ _ _ _ _ _ Hrec Hfirst) as (evs1 & Ht1 & Hc1 & Hf1).
    destruct (IH _ _ _ _ Hrec Hrun) as (evs2 & Ht2 & Hc2 & Hf2).
    exists (evs1 ++ evs2). rewrite Ht2, Ht1, app_assoc.
    split; [done | split; [lia|]].
    intros resource [->|Hin]%elem_of_cons Hfn.
    + by apply fetched_app_l, Hf1.
    + by apply fetched_app_r, Hf2.
Qed.

(** A call that ends normally listed the stack, ran the loop over the
    whole listing and printed the two summary lines. *)
Lemma run_completed fuel name nested s s' :
  listStackResources (S fuel) name nested s = (s', Normal tt) ->
  exists w listing s_loop page,
    cloudformation_listStackResources name (world s) = (w, Fulfilled listing)
    /\ for_of (visit (listStackResources fuel) (default true nested)) listing ∅
         (mkState (functionCount s) (merged s) (stacks s) w
            (trace s ++ [ListStackResources name (Fulfilled listing)]))
       = (s_loop, Normal page)
    /\ trace s' = trace s_loop ++ summary_lines name (functionCount s_loop)
    /\ functionCount s' = functionCount s_loop.
Proof.
  simpl. unfold bind at 1. unfold listStackResources_call.
  destruct (cloudformation_listStackResources name (world s)) as [w [listing|e]]; [|done].
  unfold bind at 1.
  destruct (for_of _ listing ∅ _) as [s_loop [page|e|]] eqn:Hloop; [|done..].
  intros Hrest. exists w, listing, s_loop, page.
  split; [done | split; [done|]].
  revert Hrest. unfold bind, console_log, emit, read_functionCount, store_page, ret. simpl.
  case_bool_decide; intros [= <-]; simpl; by rewrite <- app_assoc.
Qed.

(** ** The order of the configuration calls *)

Lemma fetch_calls_app evs1 evs2 :
  fetch_calls (evs1 ++ evs2) = fetch_calls evs1 ++ fetch_calls evs2.
Proof. apply omap_app. Qed.

(** On a directory whose listings do not change, a call that ends normally
    fetched the functions in listing order, depth first. *)
Lemma fetch_order_depth_first
    (listing_of : option string -> Settled (list StackResourceSummary)) :
  (forall name w, cloudformation_listStackResources name w = (w, listing_of name)) ->
  forall fuel name nested s s',
    default true nested = true ->
    listStackResources fuel name nested s = (s', Normal tt) ->
    exists evs,
      trace s' = trace s ++ evs
      /\ fetch_calls evs
         = map PhysicalResourceId (functions_depth_first fuel listing_of name).
Proof.
  intros Hstatic. induction fuel as [|fuel IH]; intros name nested s s' Hnested Hrun; [done|].
  destruct (run_completed _ _ _ _ _ Hrun) as (w & listing & s_loop & page & Hcfn & Hloop & Ht' & _).
  rewrite Hstatic in Hcfn. injection Hcfn as <- Hlisting.
  rewrite Hnested in Hloop.
  assert (forall summaries page0 s0 s1 page1,
            for_of (visit (listStackResources fuel) true) summaries page0 s0 = (s1, Normal page1) ->
            exists evs,
              trace s1 = trace s0 ++ evs
              /\ fetch_calls evs
                 = map PhysicalResourceId
                     (flat_map
                        (fun resource =>
                           (if is_nested_stack resource then
                              match PhysicalResourceId resource with
                              | Some id =>
                                  functions_depth_first fuel listing_of (split "/" id !! 1%nat)
                              | None => []
                              end
                            else []) ++
                           (if is_function resource then [resource] else []))
                        summaries)) as Hfor.
  { induction summaries as [|resource rest IHrest]; intros page0 s0 s1 page1 Hfor; simpl in Hfor.
    - injection Hfor as <- _. exists []. by rewrite app_nil_r.
    - unfold bind in Hfor.
      destruct (visit (listStackResources fuel) true page0 resource s0)
        as [s2 [page2|e|]] eqn:Hvisit; [|done..].
      destruct (IHrest _ _ _ _ Hfor) as (evs2 & Ht2 & Hf2).
      assert (exists evs1,
                trace s2 = trace s0 ++ evs1
                /\ fetch_calls evs1
                   = map PhysicalResourceId
                       ((if is_nested_stack resource then
                           match PhysicalResourceId resource with
                           | Some id =>
                               functions_depth_first fuel listing_of (split "/" id !! 1%nat)
                           | None => []
                           end
                         else []) ++
                        (if is_function resource then [resource] else [])))
        as (evs1 & Ht1 & Hf1).
      { revert Hvisit. unfold visit, GetVars.visit, is_nested_stack, is_function.
        rewrite andb_true_r.
        destruct (bool_decide (ResourceType resource = "AWS::CloudFormation::Stack")) eqn:Hstack;
          destruct (bool_decide (ResourceType resource = "AWS::Lambda::Function")) eqn:Hfn.
        - apply bool_decide_eq_true in Hstack, Hfn. by rewrite Hstack in Hfn.
        - destruct (PhysicalResourceId resource) as [id|]; [|done].
          unfold bind.
          destruct (listStackResources fuel (split "/" id !! 1%nat) None s0)
            as [s3 [[]|e|]] eqn:Hchild; [|done..].
          intros [= <- _]. rewrite app_nil_r. by apply (IH _ None).
        - unfold bind, ret, increment_functionCount, getFunctionConfiguration_call. simpl.
          destruct (lambda_getFunctionConfiguration (PhysicalResourceId resource) (world s0))
            as [w1 [config|e]]; [|done].
          destruct (Environment config ≫= Variables) as [vars|]; simpl;
            intros [= <- _]; by eexists [_].
        - intros [= <- _]. exists []. by rewrite app_nil_r. }
      exists (evs1 ++ evs2). rewrite Ht2, Ht1, app_assoc. split; [done|].
      simpl. rewrite fetch_calls_app, Hf1, Hf2. symmetry. apply map_app. }
  destruct (Hfor _ _ _ _ _ Hloop) as (evs & Ht & Hf). simpl in Ht.
  exists (ListStackResources name (Fulfilled listing) :: evs
          ++ summary_lines name (functionCount s_loop)).
  split.
  - rewrite Ht', Ht. by rewrite <- !app_assoc.
  - simpl. rewrite Hlisting, <- Hf. unfold fetch_calls. rewrite omap_app. simpl.
    by rewrite app_nil_r.
Qed.


(** C9.  In a call on a parent stack that ends normally and whose listing
    holds a nested-stack resource pointing to a child stack, the call on
    the child is a complete call that ends normally inside the parent's
    run: it lists the child, fetches the configuration of every function
    of the child's listing and counts each of them, and prints the child's
    two summary lines; the parent's two summary lines are the last events
    of the parent's run, after every event of the child's call, and the
    count they print is at least the count after the child. *)
Theorem nested_stack_completes_first (fuel : nat) parent s s'
    (before after : list StackResourceSummary) (resource : StackResourceSummary)
    (id : string) :
  listStackResources (S fuel) parent None s = (s', Normal tt) ->
  (cloudformation_listStackResources parent (world s)).2
  = Fulfilled (before ++ resource :: after) ->
  ResourceType resource = "AWS::CloudFormation::Stack" ->
  PhysicalResourceId resource = Some id ->
  let child := split "/" id !! 1%nat in
  exists sa sb pre listing body rest,
    listStackResources fuel child None sa = (sb, Normal tt)
    /\ trace sa = trace s ++ pre
    /\ (cloudformation_listStackResources child (world sa)).2 = Fulfilled listing
    /\ trace sb
       = trace sa ++ ListStackResources child (Fulfilled listing) :: body
                  ++ summary_lines child (functionCount sb)
    /\ (forall function, function ∈ listing -> is_function function = true ->
          fetched function body)
    /\ (functionCount sa + count_functions listing <= functionCount sb)%nat
    /\ trace s' = trace sb ++ rest ++ summary_lines parent (functionCount s')
    /\ (functionCount sb <= functionCount s')%nat.
Proof.
  intros Hrun Hlisting Htype Hid child.
  pose proof (fun page resource =>
    steady_visit (listStackResources fuel) true page resource
      (steady_listStackResources fuel)) as Hbody.
  destruct (run_completed _ _ _ _ _ Hrun) as (w & listing_p & s_loop & page & Hcfn & Hloop & Ht' & Hc').
  rewrite Hcfn in Hlisting. simpl in Hlisting. injection Hlisting as ->.
  simpl default in Hloop.
  apply for_of_app_inv in Hloop as (sa & page1 & Hbefore & Hafter).
  simpl in Hafter. unfold bind in Hafter.
  destruct (visit (listStackResources fuel) true page1 resource sa)
    as [sb [page2|e|]] eqn:Hvisit; [|done..].
  apply (visit_nested _ _ _ id) in Hvisit as [Hchild ->]; [|done..].
  fold child in Hchild.
  match type of Hbefore with for_of _ _ _ ?s0 = _ =>
    destruct (steady_for_of _ before Hbody ∅ s0) as (evs_before & Htb & _ & _)
  end.
  rewrite Hbefore in Htb. simpl in Htb.
  destruct (steady_for_of _ after Hbody page1 sb) as (evs_after & Hta & _ & Hca).
  rewrite Hafter in Hta, Hca. simpl in Hta, Hca.
  destruct fuel as [|fuel]; [done|].
  destruct (run_completed _ _ _ _ _ Hchild)
    as (wc & listing & sc_loop & pagec & Hcfn_c & Hloop_c & Htc & Hcc).
  apply for_of_counts in Hloop_c as (body & Htbody & Hcbody & Hfetched);
    [|apply steady_listStackResources].
  simpl in Htbody, Hcbody.
  exists sa, sb, (ListStackResources parent (Fulfilled (before ++ resource :: after)) :: evs_before),
    listing, body, evs_after.
  repeat split.
  - done.
  - rewrite Htb. by rewrite <- app_assoc.
  - by rewrite Hcfn_c.
  - rewrite Htc, Htbody, Hcc. by rewrite <- !app_assoc.
  - done.
  - lia.
  - rewrite Ht', Hta, Hc'. by rewrite <- app_assoc.
  - lia.
Qed.

End Collector.

(** ** The theorems at a concrete deployment *)

Section Witnesses.
Import CollectorExample.

(** The functions of the example deployment, depth first. *)
Lemma example_depth_first :
  map LogicalResourceId
    (functions_depth_first 3 (fun name => (listing name tt).2) (Some "app"))
  = ["First"; "Inner"; "Second"].
Proof. reflexivity. Qed.

Lemma last_write_wins_witness :
  exists s' r,
    listStackResources listing configuration 3 (Some "app") None initial = (s', r)
    /\ merged s' !! "STAGE" = Some "three".
Proof.
  destruct (listStackResources listing configuration 3 (Some "app") None initial)
    as [s' r] eqn:Hrun.
  exists s', r. split; [done|].
  apply (last_write_wins listing configuration 3 (Some "app") None initial
           s' r (trace s')
           [] [{["STAGE" := "two"]}] []
           (list_to_map [("STAGE", "one"); ("TABLE", "orders")])
           {["STAGE" := "three"]} "STAGE" "one" "three");
    [exact Hrun | done | | done | done | done | constructor].
  vm_compute in Hrun. injection Hrun as Hs Hr. rewrite <- Hs.
  vm_compute. reflexivity.
Defined.

Lemma nested_stack_completes_first_witness :
  exists s' sa sb rest,
    listStackResources listing configuration 3 (Some "app") None initial = (s', Normal tt)
    /\ listStackResources listing configuration 2 (Some "app-Child-1ABC") None sa
       = (sb, Normal tt)
    /\ trace s' = trace sb ++ rest ++ summary_lines (Some "app") (functionCount s').
Proof.
  destruct (listStackResources listing configuration 3 (Some "app") None initial)
    as [s' r] eqn:Hrun.
  assert (r = Normal tt) as ->.
  { vm_compute in Hrun. by injection Hrun as _ <-. }
  pose proof (nested_stack_completes_first listing configuration 2 (Some "app") initial s'
                [fn "First" "app-First"] [fn "Second" "app-Second"]
                (nestedStack "Child" child_arn) child_arn Hrun) as Hnested.
  specialize (Hnested eq_refl eq_refl eq_refl).
  destruct Hnested
    as (sa & sb & pre & listing_c & body & rest & Hchild & _ & _ & _ & _ & _ & Ht & _).
  change (split "/" child_arn !! 1%nat) with (Some "app-Child-1ABC") in Hchild.
  exists s', sa, sb, rest.
  split; [reflexivity|]. split; [exact Hchild | exact Ht].
Defined.

End Witnesses.

End CollectorSpec.

(** * More properties of the table replicator *)

Module ReplicatorMore.
Import ImportDynamodbLocal ReplicatorSpec.

(** ** The chunker at its edges *)

Section Chunker.
Context {Item : Type}.
Implicit Types (arr : list Item).

Lemma chunk_at_one arr k x : arr !! k = Some x -> chunk_at 1 arr k = [x].
Proof.
  intros Hk. unfold chunk_at. rewrite Nat.mul_1_r, (drop_S _ _ _ Hk). done.
Qed.

Lemma singletons arr :
  map (chunk_at 1 arr) (seq 0 (length arr)) = map (fun x => [x]) arr.
Proof.
  apply list_eq. intros k. rewrite !list_lookup_fmap.
  destruct (arr !! k) as [x|] eqn:Hk; simpl.
  - rewrite (lookup_seq_lt _ _ _ (lookup_lt_Some _ _ _ Hk)). simpl.
    by rewrite (chunk_at_one _ _ _ Hk).
  - rewrite lookup_seq_ge; [done|]. by apply lookup_ge_None.
Qed.

(** Without a stride the chunker yields the elements one by one. *)
Theorem chunkArray_default_stride arr (fuel : nat) :
  (length arr <= fuel)%nat ->
  drain fuel (chunkArray arr None) = Some (map (fun x => [x]) arr).
Proof.
  intros Hfuel. unfold chunkArray. simpl default.
  assert (windows 1 arr = length arr) as Hw.
  { unfold windows, cdiv. rewrite Z.div_1_r. lia. }
  rewrite <- singletons.
  apply (drain_from arr 1 (length arr) 0 fuel 0); [lia | done | lia | done].
Qed.

(** With a stride of zero or less the loop variable never passes the
    length: on a non-empty array the chunker yields chunks for ever, and
    with a stride of zero every one of them is empty. *)
Theorem chunkArray_nonpositive_stride arr (stride : Z) :
  stride <= 0 -> arr <> [] ->
  (forall fuel, drain fuel (chunkArray arr (Some stride)) = None)
  /\ (stride = 0 ->
      next (chunkArray arr (Some stride)) = Some ([], chunkArray arr (Some stride))).
Proof.
  intros Hstride Harr.
  assert (0 < length arr)%nat as Hlen by (destruct arr; [done | simpl; lia]).
  split.
  - unfold chunkArray. simpl default.
    assert (forall i, i <= 0 ->
              exists chunk, next (mkGenerator arr stride i)
                            = Some (chunk, mkGenerator arr stride (i + stride))) as Hnext.
    { intros i Hi. unfold next. simpl.
      destruct (Z.ltb_spec i (Z.of_nat (length arr))); [by eexists | lia]. }
    assert (forall fuel i, i <= 0 -> drain fuel (mkGenerator arr stride i) = None) as Hloop.
    { induction fuel as [|fuel IH]; intros i Hi;
        destruct (Hnext i Hi) as [chunk Hchunk]; simpl; rewrite Hchunk.
      - done.
      - by rewrite IH by lia. }
    intros fuel. by apply Hloop.
  - intros ->. unfold chunkArray, next. simpl.
    destruct (Z.ltb_spec 0 (Z.of_nat (length arr))); [|lia].
    unfold slice. simpl. rewrite !(Z.min_l 0) by lia. done.
Qed.

End Chunker.

(** ** The import on any service *)

Section AnyService.
Context {Item TableDescription World : Type}.
Variable send : Client -> @Command Item TableDescription -> World
                -> World * Settled (@Output Item TableDescription).
Variable tableName : string.
Variable limit : Z.
Implicit Types (arr items : list Item) (n k : nat) (s : @State Item TableDescription World).

Local Abbreviation import_loop := (import_loop send tableName limit).
Local Abbreviation write_event := (@write_event Item TableDescription tableName).
Local Abbreviation importRemoteDataToLocalDynamoDB :=
  (importRemoteDataToLocalDynamoDB send tableName limit).

(** Whatever the service answers, the batches issued are consecutive
    windows of the array, starting at the generator's position. *)
Lemma import_loop_batches arr n : (1 <= n)%nat ->
  forall fuel k i c s,
    i = Z.of_nat (k * n) -> (k <= windows n arr)%nat ->
    exists j,
      trace (import_loop fuel (mkGenerator arr (Z.of_nat n) i) c s).1
      = trace s ++ map write_event (map (chunk_at n arr) (seq k j))
      /\ (k + j <= windows n arr)%nat.
Proof.
  intros Hn. induction fuel as [|fuel IH]; intros k i c s Hi Hk.
  - exists 0%nat. split; [|lia]. simpl. rewrite app_nil_r.
    by destruct (next _) as [[]|].
  - destruct (decide (k * n < length arr)%nat) as [Hlt|Hge].
    + assert (k < windows n arr)%nat by (by apply windows_gt).
      rewrite (import_loop_step _ _ _ _ _ _ _ _ _ (next_window arr n k i Hn Hi Hlt)).
      unfold bind.
      destruct (client_send send dynamodbLocalDocClient _ s) as [s1 r] eqn:Hsend.
      apply client_send_trace in Hsend.
      destruct r as [o|e|]; [|exists 1%nat; simpl; split; [done | lia]..].
      destruct (limit <=? _).
      * exists 1%nat. simpl. split; [done | lia].
      * destruct (IH (S k) (Z.of_nat (S k * n))
                    (c + Z.of_nat (length (chunk_at n arr k))) s1) as (j & Ht & Hj);
          [done | lia |].
        exists (S j). split; [|lia].
        rewrite Ht, Hsend. simpl. by rewrite <- app_assoc.
    + exists 0%nat. split; [|lia].
      rewrite import_loop_exhausted by (apply (next_exhausted arr n k); [done | lia]).
      simpl. by rewrite app_nil_r.
Qed.

(** For a limit of at least 1 every batch the import issues, on any
    service and however the run ends, holds at least one and at most 25 put
    requests, never more than the limit; the items of the batches, taken
    together, are a prefix of the item list. *)
Theorem import_batches_bounded items (fuel : nat) s :
  1 <= limit ->
  exists chunks : list (list Item),
    trace (importRemoteDataToLocalDynamoDB fuel items s).1
    = trace s ++ map write_event chunks
    /\ Forall (fun chunk => (1 <= length chunk <= 25)%nat
                            /\ Z.of_nat (length chunk) <= limit) chunks
    /\ concat chunks `prefix_of` items.
Proof.
  intros HL.
  destruct (import_stride_nat limit HL) as (n & Hn & Hstride & Hstride').
  assert (Z.of_nat n <= limit) as Hnl.
  { rewrite <- Hstride. unfold import_stride. destruct (Z.ltb_spec 25 limit); lia. }
  destruct (import_loop_batches items n ltac:(lia) fuel 0%nat 0 0 s) as (j & Ht & Hj);
    [done | lia |].
  exists (map (chunk_at n items) (seq 0 j)). split; [|split].
  - unfold importRemoteDataToLocalDynamoDB, ImportDynamodbLocal.importRemoteDataToLocalDynamoDB.
    unfold chunkArray. simpl default. rewrite Hstride'. exact Ht.
  - apply Forall_fmap, Forall_seq. intros k Hk. simpl.
    assert (k * n < length items)%nat by (apply windows_gt; lia).
    rewrite length_chunk_at. lia.
  - rewrite concat_chunks. apply prefix_take.
Qed.



End AnyService.

(** With a negative limit the stride is negative: the first chunk is
    [items.slice(0, limit)], the list without its last [-limit] items, and
    the running count already meets the limit.  The import issues that one
    batch, however long, and stops. *)
Theorem negative_limit_single_batch
  {Item TableDescription World : Type}
  (send : Client -> @Command Item TableDescription -> World
          -> World * Settled (@Output Item TableDescription))
  (tableName : string) (limit : Z) (item : Item) (items : list Item) (fuel : nat)
  (s : @State Item TableDescription World) :
  limit < 0 ->
  exists w' r,
    importRemoteDataToLocalDynamoDB send tableName limit (S fuel) (item :: items) s
    = (mkState w'
         (trace s ++ [write_event tableName
                        (take (Z.to_nat (Z.of_nat (length (item :: items)) + limit))
                           (item :: items))]), r)
    /\ r <> OutOfFuel.
Proof.
  intros Hlimit.
  unfold importRemoteDataToLocalDynamoDB, chunkArray. simpl default.
  destruct (Z.ltb_spec 25 limit) as [|_]; [lia|].
  assert (next (mkGenerator (item :: items) limit 0)
          = Some (take (Z.to_nat (Z.of_nat (length (item :: items)) + limit)) (item :: items),
                  mkGenerator (item :: items) limit (0 + limit))) as Hnext.
  { unfold next. cbn [arr stride i].
    destruct (Z.ltb_spec 0 (Z.of_nat (length (item :: items)))) as [_|]; [|simpl in *; lia].
    do 2 f_equal. unfold slice.
    rewrite (Z.min_l (0 + limit)) by lia.
    destruct (Z.ltb_spec (0 + limit) 0) as [_|]; [|lia].
    rewrite (Z.min_l 0) by lia. change (Z.to_nat 0) with 0%nat. rewrite drop_0.
    rewrite Z.ltb_irrefl.
    match goal with |- take ?a _ = take ?b _ => replace a with b by lia end. done. }
  rewrite (import_loop_step _ _ _ _ _ _ _ _ _ Hnext).
  unfold bind, client_send, write_event.
  destruct (send dynamodbLocalDocClient _ (world s)) as [w' [o|e]].
  - exists w', (Normal tt). split; [|done].
    destruct (Z.leb_spec limit (0 + Z.of_nat (length (take (Z.to_nat
                (Z.of_nat (length (item :: items)) + limit)) (item :: items)))));
      [done | lia].
  - by exists w', (Throw e).
Qed.

(** ** The whole run *)

Section Run.
Context {Item TableDescription World : Type}.
Variable send : Client -> @Command Item TableDescription -> World
                -> World * Settled (@Output Item TableDescription).
Variable tableName : string.
Variable limit : Z.
Implicit Types (s : @State Item TableDescription World).

Local Abbreviation getTableDescriptionInfo := (getTableDescriptionInfo send).
Local Abbreviation client_send := (client_send send).
Local Abbreviation exportAndImport_try := (exportAndImport_try send tableName limit).
Local Abbreviation exportAndImportDynamoDBTable :=
  (exportAndImportDynamoDBTable send tableName limit).
Local Abbreviation write_event := (@write_event Item TableDescription tableName).
Local Abbreviation call_plan := (@call_plan Item TableDescription tableName).
Local Abbreviation started s :=
  (mkState (world s) (trace s ++ [ConsoleLog msg_start])).

(** The run is the block under [try] with its error, if any, printed. *)
Lemma run_unfold fuel s :
  exportAndImportDynamoDBTable fuel s
  = match exportAndImport_try fuel (started s) with
    | (s1, Throw e) => (mkState (world s1) (trace s1 ++ [ConsoleError e]), Normal tt)
    | r => r
    end.
Proof. reflexivity. Qed.

(** The run never throws: an error thrown under [try], whichever call it
    comes from, is printed to standard error as the last event and the run
    ends normally. *)
Theorem run_never_throws fuel s :
  (forall e, (exportAndImportDynamoDBTable fuel s).2 <> Throw e)
  /\ forall s1 e,
      exportAndImport_try fuel (started s) = (s1, Throw e) ->
      exportAndImportDynamoDBTable fuel s
      = (mkState (world s1) (trace s1 ++ [ConsoleError e]), Normal tt).
Proof.
  rewrite run_unfold. split.
  - intros e. by destruct (exportAndImport_try fuel (started s)) as [s1 [[]|e1|]].
  - by intros s1 e ->.
Qed.

(** From the scan on: the scan, batch writes, and a console line when the
    block ends normally. *)
Lemma after_scan_shape fuel s :
  exists chunks tail,
    trace ((tableData <- client_send dynamodbClient (ScanCommand tableName) ;;
            match Items tableData with
            | None => console_log (msg_empty tableName)
            | Some items =>
                if Z.of_nat (length items) =? 0 then console_log (msg_empty tableName)
                else
                  importRemoteDataToLocalDynamoDB send tableName limit fuel items ;;;
                  console_log (msg_done tableName)
            end) s).1
    = trace s ++ Send dynamodbClient (ScanCommand tableName) :: map write_event chunks ++ tail
    /\ match ((tableData <- client_send dynamodbClient (ScanCommand tableName) ;;
               match Items tableData with
               | None => console_log (msg_empty tableName)
               | Some items =>
                   if Z.of_nat (length items) =? 0 then console_log (msg_empty tableName)
                   else
                     importRemoteDataToLocalDynamoDB send tableName limit fuel items ;;;
                     console_log (msg_done tableName)
               end) s).2 with
       | Normal _ => exists line, tail = [ConsoleLog line]
       | _ => tail = []
       end.
Proof.
  unfold bind.
  destruct (client_send dynamodbClient (ScanCommand tableName) s)
    as [s4 [tableData|e|]] eqn:Hscan;
    apply client_send_trace in Hscan; simpl;
    try (exists [], []; by rewrite Hscan).
  assert (exists chunks tail,
            trace (console_log (msg_empty tableName) s4).1
            = trace s ++ Send dynamodbClient (ScanCommand tableName)
                :: map write_event chunks ++ tail
            /\ exists line, tail = [ConsoleLog line]) as Hempty.
  { exists [], [ConsoleLog (msg_empty tableName)]. simpl. rewrite Hscan, <- app_assoc.
    split; [done | by eexists]. }
  destruct (Items tableData) as [items|]; [|done].
  destruct (Z.of_nat (length items) =? 0); [done|].
  destruct (importRemoteDataToLocalDynamoDB send tableName limit fuel items s4)
    as [s5 r] eqn:Himport.
  destruct (import_trace _ _ _ _ _ _ _ _ Himport) as [chunks Hchunks].
  destruct r; simpl.
  - exists chunks, [ConsoleLog (msg_done tableName)].
    rewrite Hchunks, Hscan, <- !app_assoc. split; [done | by eexists].
  - exists chunks, []. rewrite Hchunks, Hscan, <- !app_assoc, app_nil_r. done.
  - exists chunks, []. rewrite Hchunks, Hscan, <- !app_assoc, app_nil_r. done.
Qed.

Lemma plan_prefix (create : option (option TableDescription)) pre rest :
  pre ++ rest = call_plan create -> pre `prefix_of` call_plan create.
Proof. intros <-. by exists rest. Qed.

(** The block under [try]: an initial part of the plan, then batch writes
    (only after the whole plan), then a console line when it ends
    normally. *)
Lemma try_shape fuel s s' r :
  exportAndImport_try fuel s = (s', r) ->
  exists create pre chunks tail,
    trace s' = trace s ++ pre ++ map write_event chunks ++ tail
    /\ pre `prefix_of` call_plan create
    /\ pre <> []
    /\ (chunks <> [] -> pre = call_plan create)
    /\ match r with
       | Normal _ => exists line, tail = [ConsoleLog line]
       | _ => tail = []
       end.
Proof.
  unfold exportAndImport_try, ImportDynamodbLocal.exportAndImport_try.
  unfold bind at 1.
  destruct (getTableDescriptionInfo tableName dynamodbDocClient s) as [s1 r1] eqn:H1.
  pose proof (getTableDescriptionInfo_trace _ _ _ _ _ _ H1) as Ht1.
  destruct r1 as [[remoteTableDescription|]|e|]; simpl;
    try (intros [= <- <-];
         exists None, [Send dynamodbDocClient (DescribeTableCommand tableName)], [], [];
         rewrite Ht1; simpl;
         split; [done | split; [by eapply plan_prefix | by repeat split]]).
  unfold bind at 1.
  destruct (getTableDescriptionInfo tableName dynamodbLocalDocClient s1) as [s2 r2] eqn:H2.
  pose proof (getTableDescriptionInfo_trace _ _ _ _ _ _ H2) as Ht2.
  destruct r2 as [localTableDescription|e|]; simpl;
    try (intros [= <- <-];
         exists None, [Send dynamodbDocClient (DescribeTableCommand tableName);
                       Send dynamodbLocalDocClient (DescribeTableCommand tableName)], [], [];
         rewrite Ht2, Ht1, <- app_assoc; simpl;
         split; [done | split; [by eapply plan_prefix | by repeat split]]).
  unfold bind at 1.
  destruct localTableDescription as [description|].
  - unfold ret at 1.
    destruct (after_scan_shape fuel s2) as (chunks & tail & Ht & Htail).
    match type of Ht with trace (?m s2).1 = _ => destruct (m s2) as [s4 r4] end.
    simpl in Ht, Htail. intros [= <- <-].
    exists None, (call_plan None), chunks, tail.
    split; [|split; [done | split; [done | split; [done|]]]].
    + rewrite Ht, Ht2, Ht1, <- !app_assoc. done.
    + by destruct r4.
  - unfold bind at 1.
    destruct (client_send dynamodbLocalDocClient
                (CreateTableCommand (Table remoteTableDescription)) s2)
      as [s3 r3] eqn:Hcreate.
    apply client_send_trace in Hcreate.
    destruct r3 as [created|e|]; simpl;
      try (intros [= <- <-];
           exists (Some (Table remoteTableDescription)),
             [Send dynamodbDocClient (DescribeTableCommand tableName);
              Send dynamodbLocalDocClient (DescribeTableCommand tableName);
              Send dynamodbLocalDocClient (CreateTableCommand (Table remoteTableDescription))],
             [], [];
           rewrite Hcreate, Ht2, Ht1, <- !app_assoc; simpl;
           split; [done | split; [by eapply plan_prefix | by repeat split]]).
    destruct (after_scan_shape fuel s3) as (chunks & tail & Ht & Htail).
    match type of Ht with trace (?m s3).1 = _ => destruct (m s3) as [s4 r4] end.
    simpl in Ht, Htail. intros [= <- <-].
    exists (Some (Table remoteTableDescription)),
      (call_plan (Some (Table remoteTableDescription))), chunks, tail.
    split; [|split; [done | split; [done | split; [done|]]]].
    + rewrite Ht, Hcreate, Ht2, Ht1, <- !app_assoc. done.
    + by destruct r4.
Qed.

(** The shape of every run. *)
Lemma run_shape fuel s :
  exists create pre chunks tail,
    trace (exportAndImportDynamoDBTable fuel s).1
    = trace s ++ ConsoleLog msg_start :: pre ++ map write_event chunks ++ tail
    /\ pre `prefix_of` call_plan create
    /\ pre <> []
    /\ (chunks <> [] -> pre = call_plan create)
    /\ closing tail.
Proof.
  rewrite run_unfold.
  destruct (exportAndImport_try fuel (started s)) as [s1 r] eqn:Htry.
  destruct (try_shape _ _ _ _ Htry)
    as (create & pre & chunks & tail & Ht & Hpre & Hne & Hall & Htail).
  destruct r as [[]|e|]; simpl in *.
  - exists create, pre, chunks, tail. rewrite Ht, <- app_assoc.
    repeat split; try done. destruct Htail as [line ->]. right; left. by eexists.
  - subst tail. exists create, pre, chunks, [ConsoleError e].
    rewrite Ht, <- !app_assoc. simpl.
    repeat split; try done. right; right. by eexists.
  - subst tail. exists create, pre, chunks, [].
    rewrite Ht, <- !app_assoc. repeat split; try done. by left.
Qed.

(** Every run, whatever the services answer and however it ends, prints
    the opening line and then issues an initial part of the plan: the
    remote describe, the local describe, at most one create-table and the
    scan, each at most once and in this order; batch writes come only
    after the whole plan and nothing but one closing console line or
    error follows them. *)
Theorem run_call_order fuel s :
  exists create pre chunks tail,
    trace (exportAndImportDynamoDBTable fuel s).1
    = trace s ++ ConsoleLog msg_start :: pre ++ map write_event chunks ++ tail
    /\ pre `prefix_of` call_plan create
    /\ pre <> []
    /\ (chunks <> [] -> pre = call_plan create)
    /\ closing tail.
Proof. apply run_shape. Qed.


(** An error of the remote describe other than "not found" is fatal: the
    run prints that same error to standard error and issues no other
    call. *)
Theorem remote_describe_error_is_fatal fuel s w e :
  send dynamodbDocClient (DescribeTableCommand tableName) (world s) = (w, Rejected e) ->
  name e <> "ResourceNotFoundException" ->
  exportAndImportDynamoDBTable fuel s
  = (mkState w (trace s ++ [ConsoleLog msg_start;
                            Send dynamodbDocClient (DescribeTableCommand tableName);
                            ConsoleError e]),
     Normal tt).
Proof.
  intros Hsend Hname. rewrite run_unfold.
  unfold exportAndImport_try, ImportDynamodbLocal.exportAndImport_try.
  unfold bind at 1.
  unfold ImportDynamodbLocal.getTableDescriptionInfo at 1.
  unfold try_catch, bind, ImportDynamodbLocal.client_send. simpl.
  rewrite Hsend. simpl. rewrite decide_False by done. simpl.
  by rewrite <- !app_assoc.
Qed.

(** When the local table is absent and the create-table is rejected, the
    run prints the error and stops: it issues neither the scan nor a batch
    write. *)
Theorem create_failure_stops_run fuel s s1 s2 w e
    (remoteTableDescription : Output) :
  getTableDescriptionInfo tableName dynamodbDocClient (started s)
  = (s1, Normal (Some remoteTableDescription)) ->
  getTableDescriptionInfo tableName dynamodbLocalDocClient s1 = (s2, Normal None) ->
  send dynamodbLocalDocClient (CreateTableCommand (Table remoteTableDescription)) (world s2)
  = (w, Rejected e) ->
  exportAndImportDynamoDBTable fuel s
  = (mkState w
       (trace s ++ [ConsoleLog msg_start;
                    Send dynamodbDocClient (DescribeTableCommand tableName);
                    Send dynamodbLocalDocClient (DescribeTableCommand tableName);
                    Send dynamodbLocalDocClient
                      (CreateTableCommand (Table remoteTableDescription));
                    ConsoleError e]),
     Normal tt).
Proof.
  intros Hremote Hlocal Hcreate.
  pose proof (getTableDescriptionInfo_trace _ _ _ _ _ _ Hremote) as Ht1.
  pose proof (getTableDescriptionInfo_trace _ _ _ _ _ _ Hlocal) as Ht2.
  simpl in Ht1. rewrite run_unfold.
  unfold exportAndImport_try, ImportDynamodbLocal.exportAndImport_try.
  unfold bind at 1. rewrite Hremote.
  unfold bind at 1. rewrite Hlocal.
  unfold bind at 1. unfold bind at 1.
  unfold ImportDynamodbLocal.client_send at 1. rewrite Hcreate.
  simpl. rewrite Ht2, Ht1. by rewrite <- !app_assoc.
Qed.

(** On a service that accepts every batch, the import of a limit of at
    least 1 ends normally and writes the first [min F N] items. *)
Lemma import_accepted (items : list Item) (fuel : nat) s :
  1 <= limit -> accepts_batches send tableName -> (length items <= fuel)%nat ->
  exists w' (chunks : list (list Item)),
    importRemoteDataToLocalDynamoDB send tableName limit fuel items s
    = (mkState w' (trace s ++ map write_event chunks), Normal tt)
    /\ concat chunks
       = take (Z.to_nat (Z.min (firstChunkCountReachingL limit) (Z.of_nat (length items))))
           items.
Proof.
  intros HL Hok Hfuel.
  destruct (import_stride_nat limit HL) as (n & Hn & Hstride & Hstride').
  pose proof (windows_le_length items n ltac:(lia)) as Hw.
  destruct (import_loop_from send tableName limit items n
              (Z.to_nat (cdiv limit (Z.of_nat n)) `min` windows n items)%nat
              0%nat fuel 0 0 s) as (w' & Hrun); try done; try lia.
  exists w', (map (chunk_at n items)
                (seq 0 (Z.to_nat (cdiv limit (Z.of_nat n)) `min` windows n items)%nat)).
  split.
  - unfold importRemoteDataToLocalDynamoDB, chunkArray. simpl default.
    rewrite Hstride'. exact Hrun.
  - rewrite concat_chunks. unfold firstChunkCountReachingL. rewrite Hstride.
    rewrite <- (issued_total limit items n HL) by lia.
    rewrite Nat2Z.id. symmetry. apply take_min_length.
Qed.

(** The whole copy.  When the remote table has items, the local table is
    there or was created, the local service accepts every batch and the
    limit is at least 1, the run writes the first [min F N] scanned items
    in order, prints the success line last and ends normally. *)
Theorem full_copy (fuel : nat) s s1 s2 s3 s4
    (remoteTableDescription : Output) (localTableDescription : option Output)
    (tableData : Output) (items : list Item) :
  getTableDescriptionInfo tableName dynamodbDocClient (started s)
  = (s1, Normal (Some remoteTableDescription)) ->
  getTableDescriptionInfo tableName dynamodbLocalDocClient s1
  = (s2, Normal localTableDescription) ->
  match localTableDescription with
  | Some _ => s3 = s2
  | None => exists created,
      client_send dynamodbLocalDocClient
        (CreateTableCommand (Table remoteTableDescription)) s2
      = (s3, Normal created)
  end ->
  client_send dynamodbClient (ScanCommand tableName) s3 = (s4, Normal tableData) ->
  Items tableData = Some items -> items <> [] ->
  1 <= limit -> accepts_batches send tableName -> (length items <= fuel)%nat ->
  exists w' (chunks : list (list Item)),
    exportAndImportDynamoDBTable fuel s
    = (mkState w' (trace s4 ++ map write_event chunks ++ [ConsoleLog (msg_done tableName)]),
       Normal tt)
    /\ concat chunks
       = take (Z.to_nat (Z.min (firstChunkCountReachingL limit) (Z.of_nat (length items))))
           items.
Proof.
  intros Hremote Hlocal Hcreate Hscan Hitems Hne HL Hok Hfuel.
  destruct (import_accepted items fuel s4 HL Hok Hfuel) as (w' & chunks & Himport & Hconcat).
  exists w', chunks. split; [|done].
  rewrite run_unfold.
  unfold exportAndImport_try, ImportDynamodbLocal.exportAndImport_try.
  unfold bind at 1. rewrite Hremote.
  unfold bind at 1. rewrite Hlocal.
  unfold bind at 1.
  assert ((match localTableDescription with
           | Some _ => ret tt
           | None =>
               client_send dynamodbLocalDocClient
                 (CreateTableCommand (Table remoteTableDescription)) ;;; ret tt
           end) s2 = (s3, Normal tt)) as ->.
  { destruct localTableDescription as [description|].
    - by subst s3.
    - destruct Hcreate as [created Hcreate]. unfold bind. by rewrite Hcreate. }
  unfold bind at 1. rewrite Hscan, Hitems.
  assert ((Z.of_nat (length items) =? 0) = false) as ->.
  { apply Z.eqb_neq. destruct items; [done | simpl; lia]. }
  unfold bind. rewrite Himport. simpl. by rewrite <- app_assoc.
Qed.

End Run.

(** ** The theorems at concrete inputs *)

Section Witnesses.
Import ReplicatorExample.

Lemma chunkArray_default_stride_witness :
  drain 3 (chunkArray [1; 2; 3]%nat None) = Some [[1]; [2]; [3]]%nat.
Proof. apply (chunkArray_default_stride [1; 2; 3]%nat 3). simpl. lia. Defined.

Lemma chunkArray_nonpositive_stride_witness :
  drain 5 (chunkArray [1; 2]%nat (Some 0)) = None
  /\ next (chunkArray [1; 2]%nat (Some 0)) = Some ([], chunkArray [1; 2]%nat (Some 0)).
Proof.
  destruct (chunkArray_nonpositive_stride [1; 2]%nat 0) as [Hdrain Hnext]; [lia | done |].
  split; [apply Hdrain | by apply Hnext].
Defined.

Lemma import_batches_bounded_witness :
  exists chunks : list (list nat),
    trace (importRemoteDataToLocalDynamoDB store_send "Orders" 3 5 [1; 2; 3; 4; 5]%nat
             (fresh [])).1
    = map (write_event "Orders") chunks
    /\ Forall (fun chunk => (1 <= length chunk <= 25)%nat /\ Z.of_nat (length chunk) <= 3)
         chunks
    /\ concat chunks `prefix_of` [1; 2; 3; 4; 5]%nat.
Proof.
  apply (import_batches_bounded store_send "Orders" 3 [1; 2; 3; 4; 5]%nat 5 (fresh [])). lia.
Defined.


Lemma negative_limit_single_batch_witness :
  exists w' r,
    importRemoteDataToLocalDynamoDB store_send "Orders" (-1) 1 [1; 2; 3]%nat (fresh [])
    = (mkState w' [write_event "Orders" [1; 2]%nat], r)
    /\ r <> OutOfFuel.
Proof.
  apply (negative_limit_single_batch store_send "Orders" (-1) 1%nat [2; 3]%nat 0 (fresh [])).
  lia.
Defined.

Lemma remote_describe_error_is_fatal_witness :
  exportAndImportDynamoDBTable denied_send "Orders" 500 3 (fresh tt)
  = (mkState tt [ConsoleLog msg_start;
                 Send dynamodbDocClient (DescribeTableCommand "Orders");
                 ConsoleError denied],
     Normal tt).
Proof.
  apply (remote_describe_error_is_fatal denied_send "Orders" 500 3 (fresh tt) tt denied);
    [reflexivity | done].
Defined.

Lemma create_failure_stops_run_witness :
  exists s',
    exportAndImportDynamoDBTable locked_send "Orders" 500 3 (fresh source) = (s', Normal tt)
    /\ scan_calls (trace s') = [] /\ console_errors (trace s') = [denied].
Proof.
  eexists. split.
  - refine (create_failure_stops_run locked_send "Orders" 500 3 (fresh source) _ _ source
              denied (described "orders-schema") _ _ _); reflexivity.
  - split; reflexivity.
Defined.

Lemma full_copy_witness :
  exists w' chunks,
    exportAndImportDynamoDBTable open_send "Orders" 2 3 (fresh [])
    = (mkState w'
         ([ConsoleLog msg_start;
           Send dynamodbDocClient (DescribeTableCommand "Orders");
           Send dynamodbLocalDocClient (DescribeTableCommand "Orders");
           Send dynamodbClient (ScanCommand "Orders")]
          ++ map (write_event "Orders") chunks ++ [ConsoleLog (msg_done "Orders")]),
       Normal tt)
    /\ concat chunks = [11; 12]%nat.
Proof.
  refine (full_copy open_send "Orders" 2 3 (fresh [])
            (mkState [] [ConsoleLog msg_start;
                         Send dynamodbDocClient (DescribeTableCommand "Orders")])
            (mkState [] [ConsoleLog msg_start;
                         Send dynamodbDocClient (DescribeTableCommand "Orders");
                         Send dynamodbLocalDocClient (DescribeTableCommand "Orders")])
            (mkState [] [ConsoleLog msg_start;
                         Send dynamodbDocClient (DescribeTableCommand "Orders");
                         Send dynamodbLocalDocClient (DescribeTableCommand "Orders")])
            (mkState [] [ConsoleLog msg_start;
                         Send dynamodbDocClient (DescribeTableCommand "Orders");
                         Send dynamodbLocalDocClient (DescribeTableCommand "Orders");
                         Send dynamodbClient (ScanCommand "Orders")])
            (described "orders-schema") (Some (described "orders-schema"))
            (scanned [11; 12; 13]%nat) [11; 12; 13]%nat _ _ _ _ _ _ _ _ _).
  - reflexivity.
  - reflexivity.
  - reflexivity.
  - reflexivity.
  - reflexivity.
  - done.
  - lia.
  - intros reqs w. by eexists _, _.
  - simpl. lia.
Defined.

End Witnesses.

End ReplicatorMore.

(** * More properties of the environment collector *)

Module CollectorMore.
Import GetVars CollectorSpec.

(** ** The nested stack's name *)

Section StackName.

Lemma append_cons (c : Ascii.ascii) (a b : string) :
  String c a +:+ b = String c (a +:+ b).
Proof. reflexivity. Qed.

Lemma append_empty (a : string) : a +:+ "" = a.
Proof.
  induction a as [|c a IH]; [done|]. by rewrite append_cons, IH.
Qed.

Lemma append_snoc (a b : string) (c : Ascii.ascii) :
  (a +:+ String c "") +:+ b = a +:+ String c b.
Proof.
  induction a as [|d a IH]; [done|]. by rewrite !append_cons, IH.
Qed.

Lemma rev_app_append (cur a : string) :
  String.rev_app cur a = String.rev cur +:+ a.
Proof.
  unfold String.rev. revert a. induction cur as [|c cur IH]; intros a; simpl; [done|].
  by rewrite (IH (String c a)), (IH (String c "")), append_snoc.
Qed.

Lemma rev_push (cur : string) (c : Ascii.ascii) (a : string) :
  String.rev (String c cur) +:+ a = String.rev cur +:+ String c a.
Proof.
  unfold String.rev at 1. simpl. by rewrite rev_app_append, append_snoc.
Qed.

(** Splitting reads up to the first separator. *)
Lemma split_go_segment sep (a cur rest : string) :
  occurs sep a = false ->
  split_go sep cur (a +:+ String sep rest)
  = (String.rev cur +:+ a) :: split_go sep "" rest.
Proof.
  revert cur. induction a as [|c a IH]; intros cur Ha.
  - change ("" +:+ String sep rest) with (String sep rest). simpl.
    rewrite decide_True by done. by rewrite append_empty.
  - rewrite append_cons. simpl in *.
    destruct (decide (c = sep)); [done|]. rewrite IH by done.
    by rewrite rev_push.
Qed.

Lemma split_go_last sep (a cur : string) :
  occurs sep a = false -> split_go sep cur a = [String.rev cur +:+ a].
Proof.
  revert cur. induction a as [|c a IH]; intros cur Ha; simpl in *.
  - by rewrite append_empty.
  - destruct (decide (c = sep)); [done|]. rewrite IH by done.
    by rewrite rev_push.
Qed.

(** The stack the traversal recurses into.  For a physical id
    [prefix/name] or [prefix/name/rest], where neither the prefix nor the
    name holds a slash, it is [name]; for an id without a slash it is
    [undefined]. *)
Theorem nested_stack_name (prefix name rest : string) :
  occurs "/" prefix = false -> occurs "/" name = false ->
  split "/" (prefix +:+ "/" +:+ name +:+ "/" +:+ rest) !! 1%nat = Some name
  /\ split "/" (prefix +:+ "/" +:+ name) !! 1%nat = Some name
  /\ split "/" prefix !! 1%nat = None.
Proof.
  intros Hprefix Hname. unfold split. split; [|split].
  - change (prefix +:+ "/" +:+ name +:+ "/" +:+ rest)
      with (prefix +:+ String "/" (name +:+ String "/" rest)).
    rewrite split_go_segment, split_go_segment by done. done.
  - change (prefix +:+ "/" +:+ name) with (prefix +:+ String "/" name).
    rewrite split_go_segment, split_go_last by done. done.
  - by rewrite split_go_last.
Qed.

End StackName.

(** ** What every traversal keeps *)

Section Traversal.
Context {World : Type}.
Variable cloudformation_listStackResources :
  option string -> World -> World * Settled (list StackResourceSummary).
Variable lambda_getFunctionConfiguration :
  option string -> World -> World * Settled FunctionConfiguration.
Implicit Types (s : @State World) (page : Page) (evs : list Event).

Local Abbreviation listStackResources :=
  (listStackResources cloudformation_listStackResources lambda_getFunctionConfiguration).
Local Abbreviation visit := (visit lambda_getFunctionConfiguration).
Local Abbreviation steady_run :=
  (steady_listStackResources cloudformation_listStackResources lambda_getFunctionConfiguration).

Section Respects.
Variable R : @State World -> list Event -> @State World -> Prop.
Hypothesis HR : composes R.

Lemma respects_ret {A} (a : A) : respects R (ret a : @M World A).
Proof. intros s. exists []. simpl. rewrite app_nil_r. split; [done | apply HR]. Qed.

Lemma respects_throw {A} e : respects R (throw e : @M World A).
Proof. intros s. exists []. simpl. rewrite app_nil_r. split; [done | apply HR]. Qed.

Lemma respects_bind {A B} (m : @M World A) (k : A -> @M World B) :
  respects R m -> (forall a, respects R (k a)) -> respects R (bind m k).
Proof.
  intros Hm Hk s. unfold bind. destruct (Hm s) as (evs1 & Ht1 & H1).
  destruct (m s) as [s1 [a|e|]]; simpl in *; [|by exists evs1..].
  destruct (Hk a s1) as (evs2 & Ht2 & H2). exists (evs1 ++ evs2).
  rewrite Ht2, Ht1, app_assoc. split; [done|]. by eapply (composes_app R HR).
Qed.

(** The steps of the traversal that touch the state. *)
Hypothesis R_list : forall name,
  respects R (listStackResources_call cloudformation_listStackResources name).
Hypothesis R_log : forall line, respects R (@console_log World line).
Hypothesis R_collect : forall page resource,
  respects R (increment_functionCount ;;;
              lambdaConfig <- getFunctionConfiguration_call lambda_getFunctionConfiguration
                                (PhysicalResourceId resource) ;;
              match Environment lambdaConfig ≫= Variables with
              | Some vars =>
                  merge_variables vars ;;;
                  ret (<[LogicalResourceId resource := vars]> page)
              | None => ret page
              end).
Hypothesis R_store : forall name page,
  page <> ∅ -> respects R (@store_page World name page).

Lemma respects_visit (recurse : option string -> option bool -> @M World unit)
    nested page resource :
  (forall name flag, respects R (recurse name flag)) ->
  respects R (visit recurse nested page resource).
Proof.
  intros Hrec. unfold visit, GetVars.visit. apply respects_bind.
  - destruct (_ && nested); [|apply respects_ret].
    destruct (PhysicalResourceId resource); [apply Hrec | apply respects_throw].
  - intros _. case_bool_decide; [apply R_collect | apply respects_ret].
Qed.

Lemma respects_for_of (body : Page -> StackResourceSummary -> @M World Page) summaries :
  (forall page resource, respects R (body page resource)) ->
  forall page, respects R (for_of body summaries page).
Proof.
  intros Hbody. induction summaries as [|resource rest IH]; intros page; simpl.
  - apply respects_ret.
  - apply respects_bind; [apply Hbody | apply IH].
Qed.

Lemma respects_run fuel : forall name nested,
  respects R (listStackResources fuel name nested).
Proof.
  induction fuel as [|fuel IH]; intros name nested; simpl.
  - intros s. exists []. simpl. rewrite app_nil_r. split; [done | apply HR].
  - apply respects_bind; [apply R_list|]. intros summaries.
    apply respects_bind.
    { apply respects_for_of. intros page resource. by apply respects_visit. }
    intros page. apply respects_bind; [apply R_log|]. intros _.
    apply respects_bind.
    { intros s. exists []. simpl. rewrite app_nil_r. split; [done | apply HR]. }
    intros count. apply respects_bind; [apply R_log|]. intros _.
    case_bool_decide as Hsize; [|apply respects_ret].
    apply R_store. intros ->. by rewrite map_size_empty in Hsize.
Qed.

End Respects.

(** In every traversal, however it ends, the counter grows by the number of
    configuration calls issued: a function is counted when its
    configuration is asked for, also when the call is then rejected. *)
Theorem functionCount_counts_calls fuel name nested s :
  exists evs,
    trace (listStackResources fuel name nested s).1 = trace s ++ evs
    /\ functionCount (listStackResources fuel name nested s).1
       = (functionCount s + length (fetch_calls evs))%nat.
Proof.
  apply (respects_run
           (fun s evs s' => functionCount s' = (functionCount s + length (fetch_calls evs))%nat)).
  - split.
    + intros s0. simpl. lia.
    + intros s1 evs1 s2 evs2 s3 H1 H2. rewrite fetch_calls_app, length_app. lia.
  - intros stack s0. unfold listStackResources_call.
    destruct (cloudformation_listStackResources stack (world s0)) as [w [rs|e]];
      eexists [_]; simpl; (split; [done | simpl; lia]).
  - intros line s0. eexists [_]. simpl. split; [done | simpl; lia].
  - intros page resource s0.
    unfold bind, increment_functionCount, getFunctionConfiguration_call. simpl.
    destruct (lambda_getFunctionConfiguration (PhysicalResourceId resource) (world s0))
      as [w [config|e]]; simpl.
    + destruct (Environment config ≫= Variables) as [vars|]; simpl;
        eexists [_]; simpl; (split; [done | simpl; lia]).
    + eexists [_]. simpl. split; [done | simpl; lia].
  - intros stack page _ s0. exists []. simpl. rewrite app_nil_r. split; [done | lia].
Qed.

(** No traversal stores an empty page, and none drops a stack from
    [stacks]. *)
Theorem stacks_pages_nonempty fuel name nested s :
  pages_nonempty s ->
  pages_nonempty (listStackResources fuel name nested s).1
  /\ dom (stacks s) ⊆ dom (stacks (listStackResources fuel name nested s).1).
Proof.
  intros Hs.
  destruct (respects_run
              (fun s evs s' => (pages_nonempty s -> pages_nonempty s')
                               /\ dom (stacks s) ⊆ dom (stacks s'))) with
    (fuel := fuel) (name := name) (nested := nested) (s := s) as (evs & _ & H1 & H2).
  - split.
    + by intros s0.
    + intros s1 evs1 s2 evs2 s3 [H1 D1] [H2 D2]. split; [tauto | set_solver].
  - intros stack s0. unfold listStackResources_call.
    destruct (cloudformation_listStackResources stack (world s0)) as [w [rs|e]];
      by eexists [_].
  - intros line s0. by eexists [_].
  - intros page resource s0.
    unfold bind, increment_functionCount, getFunctionConfiguration_call. simpl.
    destruct (lambda_getFunctionConfiguration (PhysicalResourceId resource) (world s0))
      as [w [config|e]]; simpl.
    + destruct (Environment config ≫= Variables) as [vars|]; by eexists [_].
    + by eexists [_].
  - intros stack page Hpage s0. exists []. simpl. rewrite app_nil_r.
    split; [done|]. split.
    + intros H0 k p. unfold pages_nonempty in *. simpl.
      destruct (decide (stack = k)) as [->|Hne].
      * rewrite lookup_insert_eq. by intros [= <-].
      * rewrite lookup_insert_ne by done. apply H0.
    + rewrite dom_insert. set_solver.
  - split; [by apply H1 | done].
Qed.

(** ** The merged map *)

Lemma merge_all_cons (m vars : gmap string string) maps :
  merge_all m (vars :: maps) = merge_all (vars ∪ m) maps.
Proof. reflexivity. Qed.

Lemma merge_all_origin maps : forall (m : gmap string string) X v,
  merge_all m maps !! X = Some v ->
  m !! X = Some v \/ exists vars, vars ∈ maps /\ vars !! X = Some v.
Proof.
  induction maps as [|vars maps IH]; intros m X v H; [by left|].
  rewrite merge_all_cons in H. apply IH in H as [H|(vars' & Hin & H)].
  - apply lookup_union_Some_raw in H as [H|[_ H]]; [|by left].
    right. exists vars. split; [apply list_elem_of_here | done].
  - right. exists vars'. split; [by apply list_elem_of_further | done].
Qed.

Lemma merge_all_keeps_keys maps : forall (m : gmap string string) X,
  is_Some (m !! X) -> is_Some (merge_all m maps !! X).
Proof.
  induction maps as [|vars maps IH]; intros m X H; [done|].
  rewrite merge_all_cons. apply IH. apply lookup_union_is_Some. by right.
Qed.

Lemma merge_all_takes_keys maps : forall (m vars : gmap string string) X,
  vars ∈ maps -> is_Some (vars !! X) -> is_Some (merge_all m maps !! X).
Proof.
  induction maps as [|first maps IH]; intros m vars X Hin H.
  - by apply elem_of_nil in Hin.
  - rewrite merge_all_cons. apply elem_of_cons in Hin as [->|Hin].
    + apply merge_all_keeps_keys, lookup_union_is_Some. by left.
    + by eapply IH.
Qed.

(** In every traversal, however it ends: a key of the merged map is never
    lost; every variable of every function whose configuration was fetched
    is a key of it; and each of its values is the value it had before or
    the value some fetched function gives that key. *)
Theorem merged_keys_and_values fuel name nested s :
  exists evs,
    trace (listStackResources fuel name nested s).1 = trace s ++ evs
    /\ (forall X, is_Some (merged s !! X) ->
          is_Some (merged (listStackResources fuel name nested s).1 !! X))
    /\ (forall vars X, vars ∈ visited_variables evs -> is_Some (vars !! X) ->
          is_Some (merged (listStackResources fuel name nested s).1 !! X))
    /\ (forall X v, merged (listStackResources fuel name nested s).1 !! X = Some v ->
          merged s !! X = Some v
          \/ exists vars, vars ∈ visited_variables evs /\ vars !! X = Some v).
Proof.
  destruct (steady_run fuel name nested s) as (evs & Ht & Hm & _).
  exists evs. rewrite Hm. split; [done|]. split; [|split].
  - intros X. apply merge_all_keeps_keys.
  - intros vars X. apply merge_all_takes_keys.
  - intros X v. apply merge_all_origin.
Qed.

(** ** Without recursion *)

Lemma list_calls_app evs1 evs2 :
  list_calls (evs1 ++ evs2) = list_calls evs1 ++ list_calls evs2.
Proof. apply omap_app. Qed.

Lemma for_of_flat (recurse : option string -> option bool -> @M World unit) summaries :
  forall page s s' r,
    for_of (visit recurse false) summaries page s = (s', r) ->
    r <> OutOfFuel
    /\ exists evs,
        trace s' = trace s ++ evs
        /\ list_calls evs = []
        /\ ((exists page', r = Normal page') ->
            fetch_calls evs = map PhysicalResourceId (List.filter is_function summaries)).
Proof.
  induction summaries as [|resource rest IH]; intros page s s' r Hrun.
  - injection Hrun as <- <-. split; [done|]. exists []. by rewrite app_nil_r.
  - simpl in Hrun. unfold bind at 1 in Hrun.
    unfold visit, GetVars.visit in Hrun. rewrite andb_false_r in Hrun.
    unfold bind at 1 in Hrun. unfold ret at 1 in Hrun. simpl. unfold is_function at 1.
    destruct (bool_decide (ResourceType resource = "AWS::Lambda::Function")).
    + unfold bind, increment_functionCount, getFunctionConfiguration_call in Hrun.
      simpl in Hrun.
      destruct (lambda_getFunctionConfiguration (PhysicalResourceId resource) (world s))
        as [w [config|e]]; simpl in Hrun.
      * destruct (Environment config ≫= Variables) as [vars|]; simpl in Hrun;
          apply IH in Hrun as (Hfuel & evs & Ht & Hl & Hf); simpl in Ht;
          (split; [done|]);
          eexists (_ :: evs); rewrite Ht, <- app_assoc;
          (split; [done | split; [done|]]); intros Hn; simpl; by rewrite Hf.
      * injection Hrun as <- <-. split; [done|]. eexists [_].
        split; [done | split; [done|]]. by intros [page' [=]].
    + by apply IH in Hrun.
Qed.

(** With [nested] false the traversal stays in its stack: it needs no fuel
    beyond its own call, lists that one stack only, and when it ends
    normally it has fetched the functions of that listing, in listing
    order. *)
Theorem flat_listing fuel name s :
  (listStackResources (S fuel) name (Some false) s).2 <> OutOfFuel
  /\ exists evs,
      trace (listStackResources (S fuel) name (Some false) s).1 = trace s ++ evs
      /\ list_calls evs = [name]
      /\ forall listing,
          (cloudformation_listStackResources name (world s)).2 = Fulfilled listing ->
          (listStackResources (S fuel) name (Some false) s).2 = Normal tt ->
          fetch_calls evs = map PhysicalResourceId (List.filter is_function listing).
Proof.
  destruct (listStackResources (S fuel) name (Some false) s) as [s' r] eqn:Hrun.
  simpl in Hrun. unfold bind at 1 in Hrun. unfold listStackResources_call in Hrun.
  destruct (cloudformation_listStackResources name (world s)) as [w [listing|e]];
    simpl in *.
  - unfold bind at 1 in Hrun.
    match type of Hrun with context [for_of ?b listing ?p ?s1] =>
      destruct (for_of b listing p s1) as [s2 r2] eqn:Hloop
    end.
    apply for_of_flat in Hloop as (Hfuel & evs & Ht & Hl & Hf). simpl in Ht.
    destruct r2 as [page|e|]; [| |done].
    + revert Hrun.
      unfold bind, console_log, emit, read_functionCount, store_page, ret. simpl.
      intros Hrun.
      assert (r = Normal tt
              /\ trace s' = trace s2 ++ summary_lines name (functionCount s2)) as [-> Ht'].
      { revert Hrun. case_bool_decide; intros [= <- <-]; simpl; by rewrite <- app_assoc. }
      split; [done|].
      eexists (_ :: evs ++ _). split; [|split].
      * rewrite Ht', Ht, <- !app_assoc. simpl. reflexivity.
      * simpl. by rewrite list_calls_app, Hl.
      * intros listing' [= <-] _. simpl. unfold fetch_calls in *.
        rewrite omap_app. simpl. rewrite app_nil_r. apply Hf. by eexists.
    + injection Hrun as <- <-. split; [done|].
      eexists (_ :: evs). rewrite Ht. simpl. rewrite <- app_assoc.
      split; [done | split; [by rewrite Hl | done]].
  - injection Hrun as <- <-. split; [done|]. eexists [_]. by repeat split.
Qed.

(** ** Errors *)

Lemma thrown_at_later evs1 evs2 e : thrown_at evs2 e -> thrown_at (evs1 ++ evs2) e.
Proof.
  intros [(pre & ev & -> & Hev) | ->]; [left | by right].
  exists (evs1 ++ pre), ev. by rewrite app_assoc.
Qed.

Lemma blames_bind {A B} (m : @M World A) (k : A -> @M World B) :
  steady m -> blames m -> (forall a, blames (k a)) -> blames (bind m k).
Proof.
  intros Hsteady Hm Hk s s' e. unfold bind.
  destruct (Hsteady s) as (evs1 & Ht1 & _).
  destruct (m s) as [s1 [a|e1|]] eqn:Hrun; simpl in Ht1; [| |done].
  - intros (evs2 & Ht2 & Hfrom)%Hk. exists (evs1 ++ evs2).
    rewrite Ht2, Ht1, app_assoc. split; [done | by apply thrown_at_later].
  - intros [= <- <-]. by apply Hm.
Qed.

Lemma blames_ret {A} (a : A) : blames (ret a : @M World A).
Proof. by intros s s' e. Qed.

Lemma blames_listStackResources_call name :
  blames (listStackResources_call cloudformation_listStackResources name).
Proof.
  intros s s' e. unfold listStackResources_call.
  destruct (cloudformation_listStackResources name (world s)) as [w [rs|e1]]; [done|].
  intros [= <- <-]. eexists [_]. split; [done|]. left. by exists [], (ListStackResources name (Rejected e1)).
Qed.

Lemma blames_collect page resource :
  blames (increment_functionCount ;;;
          lambdaConfig <- getFunctionConfiguration_call lambda_getFunctionConfiguration
                            (PhysicalResourceId resource) ;;
          match Environment lambdaConfig ≫= Variables with
          | Some vars =>
              merge_variables vars ;;;
              ret (<[LogicalResourceId resource := vars]> page)
          | None => ret page
          end).
Proof.
  intros s s' e. unfold bind, increment_functionCount, getFunctionConfiguration_call. simpl.
  destruct (lambda_getFunctionConfiguration (PhysicalResourceId resource) (world s))
    as [w [config|e1]]; simpl.
  - by destruct (Environment config ≫= Variables).
  - intros [= <- <-]. eexists [_]. split; [done|]. left.
    by exists [], (GetFunctionConfiguration (PhysicalResourceId resource) (Rejected e1)).
Qed.

Lemma blames_visit (recurse : option string -> option bool -> @M World unit)
    nested page resource :
  (forall name flag, steady (recurse name flag)) ->
  (forall name flag, blames (recurse name flag)) ->
  blames (visit recurse nested page resource).
Proof.
  intros Hsteady Hrec. unfold visit, GetVars.visit. apply blames_bind.
  - destruct (_ && nested); [|apply steady_ret].
    destruct (PhysicalResourceId resource); [apply Hsteady | apply steady_throw].
  - destruct (_ && nested); [|apply blames_ret].
    destruct (PhysicalResourceId resource); [apply Hrec|].
    intros s s' e [= <- <-]. exists []. rewrite app_nil_r. split; [done | by right].
  - intros _. case_bool_decide; [apply blames_collect | apply blames_ret].
Qed.

Lemma blames_for_of (body : Page -> StackResourceSummary -> @M World Page) summaries :
  (forall page resource, steady (body page resource)) ->
  (forall page resource, blames (body page resource)) ->
  forall page, blames (for_of body summaries page).
Proof.
  intros Hsteady Hbody. induction summaries as [|resource rest IH]; intros page; simpl.
  - apply blames_ret.
  - apply blames_bind; [apply Hsteady | apply Hbody | apply IH].
Qed.

Lemma blames_run fuel : forall name nested, blames (listStackResources fuel name nested).
Proof.
  induction fuel as [|fuel IH]; intros name nested; simpl; [done|].
  pose proof (fun page resource =>
    steady_visit lambda_getFunctionConfiguration (listStackResources fuel)
      (default true nested) page resource (steady_run fuel)) as Hvisit.
  apply blames_bind;
    [apply steady_listStackResources_call | apply blames_listStackResources_call|].
  intros summaries. apply blames_bind.
  { by apply steady_for_of. }
  { apply blames_for_of; [done|]. intros page resource.
    apply blames_visit; [apply steady_run | apply IH]. }
  intros page. apply blames_bind; [apply steady_console_log | done |]. intros _.
  apply blames_bind; [apply steady_read | done |]. intros count.
  apply blames_bind; [apply steady_console_log | done |]. intros _.
  by case_bool_decide.
Qed.

(** When a traversal throws, the error is the one a service rejected a call
    with, unchanged, and that call is the last event of the run: nothing is
    listed, fetched or printed after it.  The only other error is the
    [TypeError] of a nested-stack resource without a physical id. *)
Theorem error_origin fuel name nested s s' e :
  listStackResources fuel name nested s = (s', Throw e) ->
  exists evs, trace s' = trace s ++ evs /\ thrown_at evs e.
Proof. apply blames_run. Qed.

Lemma for_of_app (body : Page -> StackResourceSummary -> @M World Page) before after :
  forall page s,
    for_of body (before ++ after) page s
    = bind (for_of body before page) (for_of body after) s.
Proof.
  induction before as [|resource before IH]; intros page s; simpl; [done|].
  unfold bind. destruct (body page resource s) as [s1 [page1|e|]]; [|done..].
  by rewrite IH.
Qed.

(** A nested-stack resource without a physical id stops the traversal of
    its stack: once the resources listed before it are processed, the call
    throws the [TypeError] of [undefined.split], without a further service
    call and without the summary lines. *)
Theorem missing_physical_id_throws fuel name nested s w
    (before after : list StackResourceSummary) (resource : StackResourceSummary)
    s1 page1 :
  default true nested = true ->
  cloudformation_listStackResources name (world s)
  = (w, Fulfilled (before ++ resource :: after)) ->
  ResourceType resource = "AWS::CloudFormation::Stack" ->
  PhysicalResourceId resource = None ->
  for_of (visit (listStackResources fuel) true) before ∅
    (mkState (functionCount s) (merged s) (stacks s) w
       (trace s ++ [ListStackResources name (Fulfilled (before ++ resource :: after))]))
  = (s1, Normal page1) ->
  listStackResources (S fuel) name nested s = (s1, Throw split_of_undefined).
Proof.
  intros Hnested Hcfn Htype Hid Hbefore. simpl.
  unfold bind at 1. unfold listStackResources_call. rewrite Hcfn. simpl.
  unfold bind at 1. rewrite Hnested, for_of_app.
  unfold bind at 1. rewrite Hbefore. simpl.
  unfold bind at 1. unfold visit, GetVars.visit. rewrite Htype, Hid. simpl.
  done.
Qed.

(** ** Fuel *)

Lemma collect_finishes page resource s :
  ((if bool_decide (ResourceType resource = "AWS::Lambda::Function") then
      increment_functionCount ;;;
      lambdaConfig <- getFunctionConfiguration_call lambda_getFunctionConfiguration
                        (PhysicalResourceId resource) ;;
      match Environment lambdaConfig ≫= Variables with
      | Some vars =>
          merge_variables vars ;;;
          ret (<[LogicalResourceId resource := vars]> page)
      | None => ret page
      end
    else ret page) s).2 <> OutOfFuel.
Proof.
  case_bool_decide; [|done].
  unfold bind, ret, increment_functionCount, getFunctionConfiguration_call. simpl.
  destruct (lambda_getFunctionConfiguration _ _) as [w [config|e]]; [|done].
  by destruct (Environment config ≫= Variables).
Qed.

Lemma visit_finishes (recurse : option string -> option bool -> @M World unit)
    nested page resource s :
  (forall id, ResourceType resource = "AWS::CloudFormation::Stack" ->
     PhysicalResourceId resource = Some id ->
     forall s0, (recurse (split "/" id !! 1%nat) None s0).2 <> OutOfFuel) ->
  (visit recurse nested page resource s).2 <> OutOfFuel.
Proof.
  intros Hrec. unfold visit, GetVars.visit. unfold bind at 1.
  destruct (bool_decide (ResourceType resource = "AWS::CloudFormation::Stack") && nested)
    eqn:Hnested.
  - apply andb_true_iff in Hnested as [Hstack%bool_decide_eq_true _].
    destruct (PhysicalResourceId resource) as [id|] eqn:Hid; [|done].
    pose proof (Hrec id Hstack eq_refl s) as Hfin.
    destruct (recurse (split "/" id !! 1%nat) None s) as [s2 [[]|e|]]; [|done..].
    rewrite <- Hid. apply collect_finishes.
  - apply collect_finishes.
Qed.

Lemma for_of_finishes (recurse : option string -> option bool -> @M World unit)
    nested summaries :
  (forall resource id, resource ∈ summaries ->
     ResourceType resource = "AWS::CloudFormation::Stack" ->
     PhysicalResourceId resource = Some id ->
     forall s, (recurse (split "/" id !! 1%nat) None s).2 <> OutOfFuel) ->
  forall page s, (for_of (visit recurse nested) summaries page s).2 <> OutOfFuel.
Proof.
  induction summaries as [|resource rest IH]; intros Hrec page s; simpl; [done|].
  unfold bind at 1.
  pose proof (visit_finishes recurse nested page resource s
                (fun id => Hrec resource id (list_elem_of_here _ _))) as Hvisit.
  destruct (visit recurse nested page resource s) as [s1 [page1|e|]]; [|done..].
  apply IH. intros r id Hin. apply Hrec. by apply list_elem_of_further.
Qed.

(** When the nesting of the directory is bounded by a rank, a fuel above
    the rank of the stack is enough: the traversal is not cut. *)
Theorem enough_fuel (rank : option string -> nat) :
  well_nested cloudformation_listStackResources rank ->
  forall fuel name nested s,
    (rank name < fuel)%nat ->
    (listStackResources fuel name nested s).2 <> OutOfFuel.
Proof.
  intros Hrank. induction fuel as [|fuel IH]; intros name nested s Hfuel; [lia|].
  simpl. unfold bind at 1. unfold listStackResources_call.
  destruct (cloudformation_listStackResources name (world s)) as [w [listing|e]] eqn:Hcfn;
    [|done].
  simpl. unfold bind at 1.
  match goal with |- context [for_of ?b listing ?p ?s1] =>
    pose proof (for_of_finishes (listStackResources fuel) (default true nested) listing) as Hloop;
    specialize (Hloop (fun resource id Hin Htype Hid s0 =>
      IH (split "/" id !! 1%nat) None s0
         ltac:(pose proof (Hrank _ _ _ _ _ _ Hcfn Hin Htype Hid); lia)) p s1);
    destruct (for_of b listing p s1) as [s2 [page|e1|]]
  end; [|done..].
  unfold bind, console_log, emit, read_functionCount, store_page, ret. simpl.
  by case_bool_decide.
Qed.

End Traversal.

(** ** The script *)

(** A report that is none of the reports of a list. *)
Ltac absent H :=
  repeat (apply elem_of_cons in H as [H|H]; [done|]); by apply elem_of_nil in H.

Section Script.
Context {World : Type}.
Variable cloudformation_listStackResources :
  option string -> World -> World * Settled (list StackResourceSummary).
Variable lambda_getFunctionConfiguration :
  option string -> World -> World * Settled FunctionConfiguration.
Variable fs_writeFile : string -> gmap string string -> World -> World * option Error.

Local Abbreviation listStackResources :=
  (listStackResources cloudformation_listStackResources lambda_getFunctionConfiguration).
Local Abbreviation main :=
  (main cloudformation_listStackResources lambda_getFunctionConfiguration fs_writeFile).

(** The script writes the file only after a traversal that ended normally
    and only to a non-empty path given as fourth argument; it then writes
    once, the merged map of the end of the traversal under [Parameters],
    which is also the map it printed.  A failed traversal or a missing
    stack name writes nothing. *)
Theorem file_written_after_success fuel (argv : list string) (w : World)
    path Parameters err :
  WriteFile path Parameters err ∈ reports (main fuel argv w) ->
  (2 < length argv)%nat
  /\ argv !! 3%nat = Some path /\ path <> ""
  /\ (exists s, listStackResources fuel (argv !! 2%nat) None (initial_state w)
                = (s, Normal tt)
                /\ Parameters = merged s)
  /\ reports (main fuel argv w)
     = [PrintMerged Parameters; WriteFile path Parameters err;
        match err with Some e => WriteFailed e | None => WriteSuccessful end].
Proof.
  unfold main, GetVars.main.
  destruct (Nat.leb_spec (length argv) 2) as [|Hlen]; simpl.
  { intros Hin. absent Hin. }
  destruct (listStackResources fuel (argv !! 2%nat) None (initial_state w))
    as [s [[]|e|]]; simpl.
  - destruct (argv !! 3%nat) as [output|]; simpl.
    + case_bool_decide as Hpath; simpl.
      * destruct (fs_writeFile output (merged s) (world s)) as [w' err']. simpl.
        intros Hin. repeat (apply elem_of_cons in Hin as [Hin|Hin]; [try done|]).
        -- injection Hin as -> -> ->. repeat split; try done. by exists s.
        -- by destruct err'.
        -- by apply elem_of_nil in Hin.
      * intros Hin. absent Hin.
    + intros Hin. absent Hin.
  - intros Hin. absent Hin.
  - intros Hin. absent Hin.
Qed.

(** What the file holds: the variables of the functions whose configuration
    the traversal fetched, merged in the order of the calls from an empty
    map, so that for a name defined by several functions the last one
    fetched gives the value. *)
Theorem file_holds_fetched_variables fuel (argv : list string) (w : World)
    path Parameters err :
  WriteFile path Parameters err ∈ reports (main fuel argv w) ->
  Parameters = merge_all ∅ (visited_variables (trace (final (main fuel argv w)))).
Proof.
  unfold main, GetVars.main.
  destruct (Nat.leb_spec (length argv) 2) as [|Hlen]; simpl.
  { intros Hin. absent Hin. }
  destruct (steady_listStackResources cloudformation_listStackResources
              lambda_getFunctionConfiguration fuel (argv !! 2%nat) None (initial_state w))
    as (evs & Ht & Hm & _).
  destruct (listStackResources fuel (argv !! 2%nat) None (initial_state w))
    as [s [[]|e|]]; simpl in *.
  - destruct (argv !! 3%nat) as [output|]; simpl.
    + case_bool_decide as Hpath; simpl.
      * destruct (fs_writeFile output (merged s) (world s)) as [w' err']. simpl.
        intros Hin. repeat (apply elem_of_cons in Hin as [Hin|Hin]; [try done|]).
        -- injection Hin as _ -> _. by rewrite Hm, Ht.
        -- by destruct err'.
        -- by apply elem_of_nil in Hin.
      * intros Hin. absent Hin.
    + intros Hin. absent Hin.
  - intros Hin. absent Hin.
  - intros Hin. absent Hin.
Qed.

End Script.

(** ** The theorems at a concrete deployment *)

Section Witnesses.
Import CollectorExample.

Lemma nested_stack_name_witness :
  split "/" child_arn !! 1%nat = Some "app-Child-1ABC"
  /\ split "/" "app-Child-1ABC" !! 1%nat = None.
Proof.
  destruct (nested_stack_name "app-Child-1ABC" "x" "y" eq_refl eq_refl) as (_ & _ & Hnone).
  destruct (nested_stack_name "arn:aws:cloudformation:us-east-1:123456789012:stack"
              "app-Child-1ABC" "0a1b2c" eq_refl eq_refl) as (Hname & _ & _).
  split; [exact Hname | exact Hnone].
Defined.

Lemma stacks_pages_nonempty_witness :
  pages_nonempty (listStackResources listing configuration 3 (Some "app") None initial).1.
Proof.
  apply (stacks_pages_nonempty listing configuration 3 (Some "app") None initial).
  intros stackName page Hpage. simpl in Hpage. by rewrite lookup_empty in Hpage.
Defined.

Lemma error_origin_witness :
  exists s' e evs,
    listStackResources listing configuration 3 (Some "missing") None initial = (s', Throw e)
    /\ trace s' = evs /\ thrown_at evs e.
Proof.
  destruct (error_origin listing configuration 3 (Some "missing") None initial
              (mkState 0 ∅ ∅ tt
                 [ListStackResources (Some "missing")
                    (Rejected (mkError "ValidationError" "Stack does not exist"))])
              (mkError "ValidationError" "Stack does not exist"))
    as (evs & Ht & Hfrom); [reflexivity|].
  eexists _, _, evs. split; [reflexivity|]. split; [exact Ht | exact Hfrom].
Defined.

Lemma missing_physical_id_throws_witness :
  exists s',
    listStackResources unfinished configuration 3 (Some "app") None initial
    = (s', Throw split_of_undefined)
    /\ fetch_calls (trace s') = [Some "app-First"].
Proof.
  eexists. split.
  - refine (missing_physical_id_throws unfinished configuration 2 (Some "app") None initial tt
              [fn "First" "app-First"] [fn "Second" "app-Second"]
              (mkResource "AWS::CloudFormation::Stack" "Child" None) _ _
              eq_refl eq_refl eq_refl eq_refl _).
    vm_compute. reflexivity.
  - vm_compute. reflexivity.
Defined.

Lemma enough_fuel_witness :
  (listStackResources listing configuration 2 (Some "app") None initial).2 <> OutOfFuel.
Proof.
  apply (enough_fuel listing configuration depth); [|unfold depth; simpl; lia].
  intros name w w' summaries resource id Hcfn Hin Htype Hid.
  unfold listing in Hcfn. unfold depth.
  destruct (decide (name = Some "app")) as [->|Hname].
  - injection Hcfn as _ <-.
    repeat (apply elem_of_cons in Hin as [->|Hin]; [try done|]).
    + injection Hid as <-. vm_compute. lia.
    + by apply elem_of_nil in Hin.
  - destruct (decide (name = Some "app-Child-1ABC")); [|done].
    injection Hcfn as _ <-.
    repeat (apply elem_of_cons in Hin as [->|Hin]; [done|]). by apply elem_of_nil in Hin.
Defined.

Lemma file_written_after_success_witness :
  exists Parameters,
    reports (main listing configuration saved 3
               ["node"; "get-vars.js"; "app"; "locals.json"] tt)
    = [PrintMerged Parameters; WriteFile "locals.json" Parameters None; WriteSuccessful].
Proof.
  exists (list_to_map [("STAGE", "three"); ("TABLE", "orders")]).
  refine (proj2 (proj2 (proj2 (proj2
    (file_written_after_success listing configuration saved 3
       ["node"; "get-vars.js"; "app"; "locals.json"] tt "locals.json"
       (list_to_map [("STAGE", "three"); ("TABLE", "orders")]) None _))))).
  vm_compute. apply list_elem_of_further, list_elem_of_here.
Defined.

Lemma file_holds_fetched_variables_witness :
  (list_to_map [("STAGE", "three"); ("TABLE", "orders")] : gmap string string)
  = merge_all ∅
      (visited_variables
         (trace (final (main listing configuration saved 3
                          ["node"; "get-vars.js"; "app"; "locals.json"] tt)))).
Proof.
  apply (file_holds_fetched_variables listing configuration saved 3
           ["node"; "get-vars.js"; "app"; "locals.json"] tt "locals.json" _ None).
  vm_compute. apply list_elem_of_further, list_elem_of_here.
Defined.

Lemma fetch_order_depth_first_witness :
  exists s' evs,
    listStackResources listing configuration 3 (Some "app") None initial = (s', Normal tt)
    /\ trace s' = evs
    /\ fetch_calls evs = [Some "app-First"; Some "app-Inner"; Some "app-Second"].
Proof.
  destruct (listStackResources listing configuration 3 (Some "app") None initial)
    as [s' r] eqn:Hrun.
  assert (r = Normal tt) as ->.
  { vm_compute in Hrun. by injection Hrun as _ <-. }
  assert (forall name w, listing name w = (w, (listing name tt).2)) as Hstatic.
  { intros name []. unfold listing. by repeat case_decide. }
  destruct (fetch_order_depth_first listing configuration
              (fun name => (listing name tt).2) Hstatic
              3 (Some "app") None initial s' eq_refl Hrun) as (evs & Ht & Hf).
  exists s', evs. split; [reflexivity|]. split; [exact Ht | exact Hf].
Defined.

End Witnesses.

End CollectorMore.
